(** * Tic-Tac-Toe backend: rules engine and game session service

    A shallow embedding of [src/api/game_logic.py], [src/api/database.py]
    and [src/api/main.py], followed by the properties of the rules engine
    and of the session service that the specification states. *)

From Stdlib Require Import ZArith Lia.
From stdpp Require Import base option list strings gmap sorting.

(** ** The fragment of Python the source relies on *)

Module Py.

(** Exceptions the modelled code can raise: those of the language, the
    two the database layer raises when it binds a value the default
    engine cannot take ([OverflowError] from the driver for an integer
    beyond 64 bits, [StatementError] from the ORM for a text handed to a
    [DateTime] column), and the one a schema raises for a field that is
    not of its type. *)
Inductive exn : Type :=
| IndexError
| TypeError
| ValueError
| OverflowError
| StatementError
| ValidationError.

(** A computation either returns a value or raises. *)
Inductive result (A : Type) : Type :=
| Ok (a : A)
| Raise (e : exn).
Arguments Ok {A} a.
Arguments Raise {A} e.

#[global] Instance result_ret : MRet result := fun A a => Ok a.
#[global] Instance result_bind : MBind result := fun A B f m =>
  match m with
  | Ok a => f a
  | Raise e => Raise e
  end.

(** [l[i]]: a negative index counts from the end, an index outside the
    list raises [IndexError]. *)
Definition getitem {A} (l : list A) (i : Z) : result A :=
  let k := if (i <? 0)%Z then (i + Z.of_nat (length l))%Z else i in
  if (k <? 0)%Z then Raise IndexError
  else match l !! Z.to_nat k with
       | Some x => Ok x
       | None => Raise IndexError
       end.

(** [l[i] = x], as the list it leaves behind. *)
Definition setitem {A} (l : list A) (i : Z) (x : A) : result (list A) :=
  let k := if (i <? 0)%Z then (i + Z.of_nat (length l))%Z else i in
  if (k <? 0)%Z then Raise IndexError
  else if (Z.to_nat k <? length l)%nat then Ok (<[Z.to_nat k := x]> l)
  else Raise IndexError.

(** [True] counts as 1 and [False] as 0 under [sum]. *)
Definition int_of_bool (b : bool) : Z := if b then 1%Z else 0%Z.

(** [sum(xs)]: a left fold from 0. *)
Definition sum (xs : list Z) : Z := fold_left Z.add xs 0%Z.

(** [range(3)]. *)
Definition range3 : list Z := [0; 1; 2]%Z.

End Py.
Export Py.

(** ** game_logic.py *)

(** [class Player(str, Enum)]: a member is the string it carries. *)
Module Player.
Inductive t : Type := X | O.

Definition value (p : t) : string :=
  match p with
  | X => "X"
  | O => "O"
  end.

Definition eqb (p q : t) : bool :=
  match p, q with
  | X, X | O, O => true
  | _, _ => false
  end.
End Player.

(** [class GameStatus(str, Enum)]. *)
Module GameStatus.
Inductive t : Type := IN_PROGRESS | DRAW | WINNER_X | WINNER_O.

Definition value (s : t) : string :=
  match s with
  | IN_PROGRESS => "IN_PROGRESS"
  | DRAW => "DRAW"
  | WINNER_X => "WINNER_X"
  | WINNER_O => "WINNER_O"
  end.
End GameStatus.

(** A cell is [Optional[str]]: [None] or a string.  A board is a list of
    rows, each a list of cells; nothing in the type fixes its size. *)
Abbreviation cell := (option string).
Abbreviation Board := (list (list cell)).

(** A [Player] member stored in a cell is the string it carries. *)
Definition mark (p : Player.t) : cell := Some (Player.value p).

(** [c == p] for a cell [c] and a [Player] member [p]. *)
Definition cell_is (p : Player.t) (c : cell) : bool :=
  match c with
  | Some s => String.eqb s (Player.value p)
  | None => false
  end.

(** [c == d] for two cells. *)
Definition cell_eqb (c d : cell) : bool :=
  match c, d with
  | Some s, Some s' => String.eqb s s'
  | None, None => true
  | _, _ => false
  end.

(** Truth value of a cell: [None] and the empty string are false. *)
Definition truthy (c : cell) : bool :=
  match c with
  | Some s => negb (String.eqb s "")
  | None => false
  end.

(** [c is None]. *)
Definition is_none (c : cell) : bool :=
  match c with
  | Some _ => false
  | None => true
  end.

(** [for row in board for cell in row]. *)
Definition cells (board : Board) : list cell := concat board.

Definition initial_board : Board :=
  map (fun _ => map (fun _ => None) range3) range3.

Definition x_count (board : Board) : Z :=
  sum (map (fun c => int_of_bool (cell_is Player.X c)) (cells board)).

Definition o_count (board : Board) : Z :=
  sum (map (fun c => int_of_bool (cell_is Player.O c)) (cells board)).

Definition get_next_player (board : Board) : Player.t :=
  if (x_count board >? o_count board)%Z then Player.O else Player.X.

(** The eight lines, as lists of (row, column) pairs, in the order the
    loop of [check_winner] visits them. *)
Definition lines : list (list (Z * Z)) :=
  map (fun i => map (fun j => (i, j)) range3) range3.

Definition cols : list (list (Z * Z)) :=
  map (fun i => map (fun j => (j, i)) range3) range3.

Definition diags : list (list (Z * Z)) :=
  [ map (fun i => (i, i)) range3;
    map (fun i => (i, 2 - i)%Z) range3 ].

(** [[board[i][j] for i, j in line]]. *)
Definition line_marks (board : Board) (line : list (Z * Z)) : result (list cell) :=
  mapM (fun ij => row ← getitem board ij.1; getitem row ij.2) line.

(** The loop of [check_winner] over the lines still to visit; the inner
    loop [for line in [line_indices]] runs its body once. *)
Fixpoint check_lines (board : Board) (todo : list (list (Z * Z)))
  : result (option Player.t) :=
  match todo with
  | [] => Ok None
  | line :: rest =>
      marks ← line_marks board line;
      first ← getitem marks 0;
      if truthy first && forallb (fun c => cell_eqb c first) marks then
        if cell_is Player.X first then Ok (Some Player.X)
        else if cell_is Player.O first then Ok (Some Player.O)
        else check_lines board rest
      else check_lines board rest
  end.

Definition check_winner (board : Board) : result (option Player.t) :=
  check_lines board (lines ++ cols ++ diags).

Definition is_draw (board : Board) : result bool :=
  if existsb is_none (cells board) then Ok false
  else
    winner ← check_winner board;
    Ok (match winner with None => true | Some _ => false end).

Definition get_game_status (board : Board) : result GameStatus.t :=
  winner ← check_winner board;
  match winner with
  | Some Player.X => Ok GameStatus.WINNER_X
  | Some Player.O => Ok GameStatus.WINNER_O
  | None =>
      draw ← is_draw board;
      if draw : bool then Ok GameStatus.DRAW else Ok GameStatus.IN_PROGRESS
  end.

(** The three ways [play_move] rejects a move; the source reports each
    as a message (see [error_message]). *)
Inductive move_error : Type :=
| OutOfBounds
| CellOccupied
| WrongTurn (expected : Player.t).

(** The message of each rejection.  [fmt] is how an f-string renders a
    [Player] member, which differs between Python versions. *)
Definition error_message (fmt : Player.t -> string) (e : move_error) : string :=
  match e with
  | OutOfBounds => "Move out of bounds."
  | CellOccupied => "Cell already taken."
  | WrongTurn expected => "It's " +:+ fmt expected +:+ "'s turn."
  end.

(** [play_move] on board values: the pair (board, error) it returns.
    The input is a value here, so the copy [[r.copy() for r in board]]
    is the board itself; [play_move_heap] below keeps the objects. *)
Definition play_move (board : Board) (row col : Z) (player : Player.t)
  : result (Board * option move_error) :=
  if (row <? 0)%Z || (row >? 2)%Z || (col <? 0)%Z || (col >? 2)%Z then
    Ok (board, Some OutOfBounds)
  else
    r ← getitem board row;
    c ← getitem r col;
    if negb (is_none c) then Ok (board, Some CellOccupied)
    else
      let expected_player := get_next_player board in
      if negb (Player.eqb player expected_player) then
        Ok (board, Some (WrongTurn expected_player))
      else
        let next_board := board in
        r' ← getitem next_board row;
        r'' ← setitem r' col (mark player);
        next_board' ← setitem next_board row r'';
        Ok (next_board', None).

(** ** Boards as Python objects

    A Python board is a list object whose items refer to row objects, and
    [play_move] works on such references.  The heap below keeps one
    object per address; a new object goes to the first free address. *)

Module Heap.

Abbreviation loc := nat.

Inductive obj : Type :=
| ORow (cs : list cell)
| OBoard (rows : list loc).

Abbreviation heap := (list obj).

Definition alloc (h : heap) (o : obj) : heap * loc := (h ++ [o], length h).

Definition load_row (h : heap) (l : loc) : result (list cell) :=
  match h !! l with
  | Some (ORow cs) => Ok cs
  | _ => Raise TypeError
  end.

Definition load_board (h : heap) (l : loc) : result (list loc) :=
  match h !! l with
  | Some (OBoard rows) => Ok rows
  | _ => Raise TypeError
  end.

(** The board value an address holds in a heap. *)
Definition read_board (h : heap) (b : loc) : result Board :=
  rows ← load_board h b; mapM (load_row h) rows.

(** [[r.copy() for r in board]]: one new row object per item, in order. *)
Fixpoint copy_rows (h : heap) (rows : list loc) : result (heap * list loc) :=
  match rows with
  | [] => Ok (h, [])
  | r :: rest =>
      cs ← load_row h r;
      let (h1, r') := alloc h (ORow cs) in
      hr ← copy_rows h1 rest;
      Ok (hr.1, r' :: hr.2)
  end.

(** [play_move] on references: the heap it leaves, the board reference
    it returns and the error. *)
Definition play_move_heap (h : heap) (board : loc) (row col : Z) (player : Player.t)
  : result (heap * (loc * option move_error)) :=
  if (row <? 0)%Z || (row >? 2)%Z || (col <? 0)%Z || (col >? 2)%Z then
    Ok (h, (board, Some OutOfBounds))
  else
    rows ← load_board h board;
    r ← getitem rows row;
    cs ← load_row h r;
    c ← getitem cs col;
    if negb (is_none c) then Ok (h, (board, Some CellOccupied))
    else
      value ← read_board h board;
      let expected_player := get_next_player value in
      if negb (Player.eqb player expected_player) then
        Ok (h, (board, Some (WrongTurn expected_player)))
      else
        hc ← copy_rows h rows;
        let (h1, next_board) := alloc hc.1 (OBoard hc.2) in
        r' ← getitem hc.2 row;
        cs' ← load_row h1 r';
        cs'' ← setitem cs' col (mark player);
        Ok (<[r' := ORow cs'']> h1, (next_board, None)).

End Heap.

(** ** database.py

    The table [games] is a finite map from the primary key to the other
    columns.  The text columns [moves] and [board] hold JSON; the model
    keeps the values that [json.loads] gives back, in which a [Player]
    member has become its string.  Timestamps are opaque text. *)

Definition timestamp : Type := string.

(** One entry of [moves]: [dict(player=..., row=..., col=...)]. *)
Module MoveDict.
Record t : Type := { player : string; row : Z; col : Z }.
End MoveDict.

Module Game.
Record t : Type := {
  moves : list MoveDict.t;
  board : Board;
  status : string;
  winner : option string;
  created_at : option timestamp;
  finished_at : option timestamp
}.
End Game.

(** The dictionary [get_game] and [list_games] build for a row. *)
Module GameDict.
Record t : Type := {
  id : Z;
  moves : list MoveDict.t;
  board : Board;
  status : string;
  winner : option string;
  created_at : option timestamp;
  finished_at : option timestamp
}.

Definition of_row (key : Z) (g : Game.t) : t :=
  {| id := key;
     moves := Game.moves g;
     board := Game.board g;
     status := Game.status g;
     winner := Game.winner g;
     created_at := Game.created_at g;
     finished_at := Game.finished_at g |}.
End GameDict.

(** The key the engine gives a new row.  The source leaves it to the
    database; the default one (SQLite) takes one more than the largest key
    of the table, and 1 for an empty table. *)
Definition next_id (db : gmap Z Game.t) : Z :=
  match (map_to_list db).*1 with
  | [] => 1%Z
  | k :: ks => Z.succ (foldr Z.max k ks)
  end.

(** [create_game]; [now] is the clock behind [server_default=func.now()]. *)
Definition create_game (moves : list MoveDict.t) (board : Board) (status : string)
    (winner : option string) (now : timestamp) (db : gmap Z Game.t)
  : Z * gmap Z Game.t :=
  let game := {| Game.moves := moves;
                 Game.board := board;
                 Game.status := status;
                 Game.winner := winner;
                 Game.created_at := Some now;
                 Game.finished_at := None |} in
  let key := next_id db in
  (key, <[key := game]> db).

(** Truth value of the optional text [finished_at]. *)
Definition truthy_text (t : option string) : bool :=
  match t with
  | Some s => negb (String.eqb s "")
  | None => false
  end.

(** [update_game].  The argument [finished_at] is a text (or [None]);
    the column [finished_at] is a [DateTime], which on the default engine
    (SQLite) takes [datetime] objects only.  So when the text is truthy
    and is assigned to the column, [db.commit()] raises and nothing is
    written; otherwise the column keeps what it held. *)
Definition update_game (game_id : Z) (moves : list MoveDict.t) (board : Board)
    (status : string) (winner : option string) (finished_at : option timestamp)
    (db : gmap Z Game.t) : result unit * gmap Z Game.t :=
  match db !! game_id with
  | None => (Raise ValueError, db)
  | Some game =>
      let game' := {| Game.moves := moves;
                      Game.board := board;
                      Game.status := status;
                      Game.winner := winner;
                      Game.created_at := Game.created_at game;
                      Game.finished_at := Game.finished_at game |} in
      if truthy_text finished_at then
        (* game.finished_at = finished_at; db.commit() raises *)
        (Raise StatementError, db)
      else
        (* db.commit() *)
        (Ok tt, <[game_id := game']> db)
  end.

Definition get_game (game_id : Z) (db : gmap Z Game.t) : option GameDict.t :=
  match db !! game_id with
  | None => None
  | Some game => Some (GameDict.of_row game_id game)
  end.

(** [ORDER BY id DESC]. *)
Definition id_desc (a b : Z * Game.t) : Prop := (b.1 ≤ a.1)%Z.

#[global] Instance id_desc_dec a b : Decision (id_desc a b).
Proof. unfold id_desc. apply _. Defined.

#[global] Instance id_desc_trans : Transitive id_desc.
Proof. unfold id_desc. intros a b c. lia. Qed.

#[global] Instance id_desc_total : Total id_desc.
Proof. unfold id_desc. intros a b. lia. Qed.

Definition order_by_id_desc (db : gmap Z Game.t) : list (Z * Game.t) :=
  merge_sort id_desc (map_to_list db).

(** [OFFSET n] and [LIMIT n] as the default engine (SQLite) reads them: a
    negative offset skips nothing, a negative limit is no limit. *)
Definition sql_offset {A} (n : Z) (rows : list A) : list A :=
  drop (Z.to_nat n) rows.

Definition sql_limit {A} (n : Z) (rows : list A) : list A :=
  if (n <? 0)%Z then rows else take (Z.to_nat n) rows.

(** An integer the driver of the default engine can bind as a query
    parameter: one of the signed 64-bit range. *)
Definition int64 (n : Z) : bool :=
  (- 2 ^ 63 <=? n)%Z && (n <? 2 ^ 63)%Z.

(** [list_games].  [limit] and [offset] are bound as parameters of the
    query; running it raises [OverflowError] when one of them is beyond
    64 bits. *)
Definition list_games (limit offset : Z) (db : gmap Z Game.t)
  : result (list GameDict.t) :=
  if int64 limit && int64 offset then
    Ok (map (fun r => GameDict.of_row r.1 r.2)
            (sql_limit limit (sql_offset offset (order_by_id_desc db))))
  else Raise OverflowError.

(** ** schemas.py *)

Module GameCreateRequest.
Record t : Type := { first_player : option Player.t }.
End GameCreateRequest.

Module GameMoveRequest.
Record t : Type := { player : Player.t; row : Z; col : Z }.

(** The field constraints [ge=0, le=2] that the request layer checks
    before [make_move] runs. *)
Definition validates (req : t) : bool :=
  (0 <=? row req)%Z && (row req <=? 2)%Z && (0 <=? col req)%Z && (col req <=? 2)%Z.
End GameMoveRequest.

Module GameStatusResponse.
Record t : Type := {
  id : Z;
  board : Board;
  moves : list MoveDict.t;
  status : string;
  winner : option string;
  created_at : option timestamp;
  finished_at : option timestamp
}.

(** The response for a dictionary whose fields are of the types the
    schema declares (see [fits_schema] below); the rows the service
    writes are such. *)
Definition of_dict (game : GameDict.t) : t :=
  {| id := GameDict.id game;
     board := GameDict.board game;
     moves := GameDict.moves game;
     status := GameDict.status game;
     winner := GameDict.winner game;
     created_at := GameDict.created_at game;
     finished_at := GameDict.finished_at game |}.
End GameStatusResponse.

Module GameHistoryItem.
Record t : Type := {
  id : Z;
  status : string;
  winner : option string;
  created_at : option timestamp;
  finished_at : option timestamp
}.

Definition of_dict (g : GameDict.t) : t :=
  {| id := GameDict.id g;
     status := GameDict.status g;
     winner := GameDict.winner g;
     created_at := GameDict.created_at g;
     finished_at := GameDict.finished_at g |}.

(** The field types [status: GameStatus] and [winner: Optional[Player]]:
    the stored status is the value of a member of [GameStatus], the
    stored winner is [None] or the value of a member of [Player]. *)
Definition validates (g : GameDict.t) : bool :=
  existsb (fun s => String.eqb (GameDict.status g) (GameStatus.value s))
          [GameStatus.IN_PROGRESS; GameStatus.DRAW;
           GameStatus.WINNER_X; GameStatus.WINNER_O]
  && match GameDict.winner g with
     | None => true
     | Some w => existsb (fun p => String.eqb w (Player.value p)) [Player.X; Player.O]
     end.

(** [GameHistoryItem(id=g["id"], status=g["status"], ...)]. *)
Definition make (g : GameDict.t) : result t :=
  if validates g then Ok (of_dict g) else Raise ValidationError.
End GameHistoryItem.

(** ** main.py *)

(** What an [HTTPException] of the service carries as [detail]:
    "Game not found", "Game is already finished.", or the message of a
    rejected move. *)
Inductive detail : Type :=
| NotFound
| GameFinished
| MoveRejected (e : move_error).

Definition detail_text (fmt : Player.t -> string) (d : detail) : string :=
  match d with
  | NotFound => "Game not found"
  | GameFinished => "Game is already finished."
  | MoveRejected e => error_message fmt e
  end.

(** How a request handler ends: with its response, with an
    [HTTPException], or with an exception nothing catches. *)
Inductive reply (A : Type) : Type :=
| Returned (a : A)
| HTTPException (status_code : Z) (d : detail)
| Uncaught (e : exn).
Arguments Returned {A} a.
Arguments HTTPException {A} status_code d.
Arguments Uncaught {A} e.

(** [status in [GameStatus.WINNER_X, GameStatus.WINNER_O, GameStatus.DRAW]]
    for a stored status. *)
Definition finished (status : string) : bool :=
  existsb (fun s => String.eqb status (GameStatus.value s))
          [GameStatus.WINNER_X; GameStatus.WINNER_O; GameStatus.DRAW].

(** The same test on a member of [GameStatus]. *)
Definition terminal (s : GameStatus.t) : bool :=
  match s with
  | GameStatus.WINNER_X | GameStatus.WINNER_O | GameStatus.DRAW => true
  | GameStatus.IN_PROGRESS => false
  end.

(** [start_game]; [now] is the database clock.  The request is an
    argument the body never reads. *)
Definition start_game (req : GameCreateRequest.t) (now : timestamp)
    (db : gmap Z Game.t) : reply GameStatusResponse.t * gmap Z Game.t :=
  let board := initial_board in
  let moves := [] in
  match get_game_status board with
  | Raise e => (Uncaught e, db)
  | Ok status =>
      let (game_id, db') :=
        create_game moves board (GameStatus.value status) None now db in
      match get_game game_id db' with
      | None => (Uncaught TypeError, db')
      | Some game => (Returned (GameStatusResponse.of_dict game), db')
      end
  end.

Definition get_game_status_api (game_id : Z) (db : gmap Z Game.t)
  : reply GameStatusResponse.t :=
  match get_game game_id db with
  | None => HTTPException 404 NotFound
  | Some game => Returned (GameStatusResponse.of_dict game)
  end.

(** [make_move]; [utcnow] is what [datetime.utcnow().isoformat()] gives.
    The table is threaded through every exit, so that what a failing
    call leaves stored is visible. *)
Definition make_move (game_id : Z) (req : GameMoveRequest.t) (utcnow : timestamp)
    (db : gmap Z Game.t) : reply GameStatusResponse.t * gmap Z Game.t :=
  match get_game game_id db with
  | None => (HTTPException 404 NotFound, db)
  | Some game =>
      let board := GameDict.board game in
      let moves := GameDict.moves game in
      let status := GameDict.status game in
      if finished status then (HTTPException 400 GameFinished, db)
      else
        match play_move board (GameMoveRequest.row req) (GameMoveRequest.col req)
                        (GameMoveRequest.player req) with
        | Raise e => (Uncaught e, db)
        | Ok (_, Some error) => (HTTPException 400 (MoveRejected error), db)
        | Ok (updated_board, None) =>
            let moves :=
              moves ++ [ {| MoveDict.player := Player.value (GameMoveRequest.player req);
                            MoveDict.row := GameMoveRequest.row req;
                            MoveDict.col := GameMoveRequest.col req |} ] in
            match get_game_status updated_board with
            | Raise e => (Uncaught e, db)
            | Ok new_status =>
                let new_winner :=
                  match new_status with
                  | GameStatus.WINNER_X => Some (Player.value Player.X)
                  | GameStatus.WINNER_O => Some (Player.value Player.O)
                  | _ => None
                  end in
                let finished_timestamp :=
                  if terminal new_status then Some utcnow else None in
                match update_game game_id moves updated_board
                        (GameStatus.value new_status) new_winner
                        finished_timestamp db with
                | (Raise e, db') => (Uncaught e, db')
                | (Ok _, db') =>
                    match get_game game_id db' with
                    | None => (Uncaught TypeError, db')
                    | Some game => (Returned (GameStatusResponse.of_dict game), db')
                    end
                end
            end
        end
  end.

Definition list_game_history (limit offset : Z) (db : gmap Z Game.t)
  : result (list GameHistoryItem.t) :=
  games ← list_games limit offset db;
  mapM GameHistoryItem.make games.

(** ** Vocabulary of the specification *)

(** *** Boards of the data model *)

(** A board of the data model: three rows of three cells. *)
Definition is_grid (b : Board) : Prop :=
  length b = 3%nat ∧ Forall (fun r => length r = 3%nat) b.

(** A cell of the data model: empty, or the mark of a player. *)
Definition is_mark (c : cell) : Prop := c = None ∨ ∃ p, c = mark p.

Definition marks_only (b : Board) : Prop := Forall (Forall is_mark) b.

(** No cell is empty. *)
Definition full (b : Board) : Prop := Forall (Forall (fun c => c ≠ None)) b.

Definition in_range (i : Z) : Prop := (0 ≤ i ≤ 2)%Z.

(** The cell at (i, j), when the board has one there. *)
Definition cell_at (b : Board) (i j : Z) : option cell :=
  if (i <? 0)%Z || (j <? 0)%Z then None
  else r ← b !! Z.to_nat i; r !! Z.to_nat j.

(** *** Moves *)

#[global] Instance Player_eq_dec : EqDecision Player.t.
Proof. solve_decision. Defined.

(** The board with the mark of [p] written at (row, col). *)
Definition place (b : Board) (row col : Z) (p : Player.t) : Board :=
  match b !! Z.to_nat row with
  | Some r => <[Z.to_nat row := <[Z.to_nat col := mark p]> r]> b
  | None => b
  end.

(** What [play_move] decides, in the order of its checks. *)
Definition move_outcome (b : Board) (row col : Z) (player : Player.t)
  : Board * option move_error :=
  if decide (in_range row ∧ in_range col) then
    match cell_at b row col with
    | Some (Some _) => (b, Some CellOccupied)
    | _ =>
        if decide (player = get_next_player b) then (place b row col player, None)
        else (b, Some (WrongTurn (get_next_player b)))
    end
  else (b, Some OutOfBounds).

(** Boards that successful [play_move] calls produce from the empty one. *)
Inductive reachable : Board → Prop :=
| reachable_initial : reachable initial_board
| reachable_move b row col player b' :
    reachable b →
    play_move b row col player = Ok (b', None) →
    reachable b'.

(** The board after a sequence of moves all of which succeed. *)
Fixpoint play_sequence (b : Board) (ms : list (Player.t * Z * Z)) : option Board :=
  match ms with
  | [] => Some b
  | (player, row, col) :: rest =>
      match play_move b row col player with
      | Ok (b', None) => play_sequence b' rest
      | _ => None
      end
  end.

(** *** Lines *)

(** The eight lines in the order the specification gives: rows 0-2,
    columns 0-2, the main diagonal, the anti-diagonal. *)
Definition scan_order : list (list (Z * Z)) :=
  [ [(0, 0); (0, 1); (0, 2)]; [(1, 0); (1, 1); (1, 2)]; [(2, 0); (2, 1); (2, 2)];
    [(0, 0); (1, 0); (2, 0)]; [(0, 1); (1, 1); (2, 1)]; [(0, 2); (1, 2); (2, 2)];
    [(0, 0); (1, 1); (2, 2)];
    [(0, 2); (1, 1); (2, 0)] ]%Z.

(** Every cell of the line holds the mark of [p]. *)
Definition complete (b : Board) (line : list (Z * Z)) (p : Player.t) : Prop :=
  ∀ ij, ij ∈ line → cell_at b ij.1 ij.2 = Some (mark p).

(** The cells of the line are non-empty and identical. *)
Definition filled_alike (b : Board) (line : list (Z * Z)) : Prop :=
  ∃ s, ∀ ij, ij ∈ line → cell_at b ij.1 ij.2 = Some (Some s).

(** The mark that fills a whole line, computed. *)
Definition line_mark (b : Board) (line : list (Z * Z)) : option Player.t :=
  if forallb (fun ij => bool_decide (cell_at b ij.1 ij.2 = Some (mark Player.X))) line
  then Some Player.X
  else if forallb (fun ij => bool_decide (cell_at b ij.1 ij.2 = Some (mark Player.O))) line
  then Some Player.O
  else None.

(** The mark of the first line of [todo] that one mark fills. *)
Fixpoint first_line_mark (b : Board) (todo : list (list (Z * Z))) : option Player.t :=
  match todo with
  | [] => None
  | line :: rest =>
      match line_mark b line with
      | Some p => Some p
      | None => first_line_mark b rest
      end
  end.

(** What the body of the loop of [check_winner] concludes from the marks
    of one line. *)
Definition judge (marks : list cell) : option Player.t :=
  match marks with
  | [] => None
  | first :: _ =>
      if truthy first && forallb (fun c => cell_eqb c first) marks then
        if cell_is Player.X first then Some Player.X
        else if cell_is Player.O first then Some Player.O
        else None
      else None
  end.

(** *** Objects *)

Import Heap.

(** Every object of [h] is still there, unchanged, in [h']. *)
Definition extends (h h' : heap) : Prop :=
  ∀ l o, h !! l = Some o → h' !! l = Some o.

(** *** Stored games *)

(** A stored status is terminal: WINNER_X, WINNER_O or DRAW. *)
Definition is_terminal (status : string) : Prop :=
  status = "WINNER_X" ∨ status = "WINNER_O" ∨ status = "DRAW".

(** A sequence of [make_move] calls, each with its own clock reading,
    and the table they leave. *)
Definition run_moves (calls : list (Z * GameMoveRequest.t * timestamp))
    (db : gmap Z Game.t) : gmap Z Game.t :=
  foldl (fun db call => (make_move call.1.1 call.1.2 call.2 db).2) db calls.

(** The table after a sequence of [start_game] calls, each with its
    request and the reading of the database clock. *)
Definition start_games (calls : list (GameCreateRequest.t * timestamp))
    (db : gmap Z Game.t) : gmap Z Game.t :=
  foldl (fun db call => (start_game call.1 call.2 db).2) db calls.

(** The summary view of a stored game: the id, the status, the winner and
    the two timestamps. *)
Definition summary (row : Z * Game.t) : GameHistoryItem.t :=
  {| GameHistoryItem.id := row.1;
     GameHistoryItem.status := Game.status row.2;
     GameHistoryItem.winner := Game.winner row.2;
     GameHistoryItem.created_at := Game.created_at row.2;
     GameHistoryItem.finished_at := Game.finished_at row.2 |}.

(** The summary of a game that has just been created. *)
Definition new_game_summary (key : Z) (now : timestamp) : GameHistoryItem.t :=
  {| GameHistoryItem.id := key;
     GameHistoryItem.status := "IN_PROGRESS";
     GameHistoryItem.winner := None;
     GameHistoryItem.created_at := Some now;
     GameHistoryItem.finished_at := None |}.

(** [rows] lists the games of the table newest first: every stored game
    once, in strictly descending order of id. *)
Definition newest_first (db : gmap Z Game.t) (rows : list (Z * Game.t)) : Prop :=
  (∀ key g, (key, g) ∈ rows ↔ db !! key = Some g) ∧
  (∀ i j a b, (i < j)%nat → rows !! i = Some a → rows !! j = Some b → (b.1 < a.1)%Z).

(** Five games created at five clock readings, in an empty database. *)
Definition five_games : gmap Z Game.t :=
  start_games
    [ ({| GameCreateRequest.first_player := Some Player.X |}, "2024-01-01T10:00:00");
      ({| GameCreateRequest.first_player := Some Player.O |}, "2024-01-01T11:00:00");
      ({| GameCreateRequest.first_player := None |}, "2024-01-01T12:00:00");
      ({| GameCreateRequest.first_player := Some Player.X |}, "2024-01-01T13:00:00");
      ({| GameCreateRequest.first_player := Some Player.O |}, "2024-01-01T14:00:00") ]
    ∅.

(** *** Tables the service produces *)

(** The tables that calls of [start_game] and [make_move] produce from
    an empty database, whatever the requests and the clock readings. *)
Inductive served : gmap Z Game.t → Prop :=
| served_empty : served ∅
| served_start req now db :
    served db → served (start_game req now db).2
| served_move game_id req now db :
    served db → served (make_move game_id req now db).2.

(** The tables the service produces when it runs: as [served], with the
    clock of [make_move] giving a reading that is not empty, as
    [isoformat] does. *)
Inductive produced : gmap Z Game.t → Prop :=
| produced_empty : produced ∅
| produced_start req now db :
    produced db → produced (start_game req now db).2
| produced_move game_id req now db :
    produced db → now ≠ "" → produced (make_move game_id req now db).2.

(** The stored status and winner are of the types the schemas declare:
    the value of a member of [GameStatus], and [None] or the value of a
    member of [Player]. *)
Definition valid_summary (g : Game.t) : Prop :=
  (∃ s, Game.status g = GameStatus.value s) ∧
  (Game.winner g = None ∨ ∃ p, Game.winner g = Some (Player.value p)).

(** An entry of the stored moves is of the type [MoveSchema]. *)
Definition valid_move (m : MoveDict.t) : Prop :=
  (∃ p, MoveDict.player m = Player.value p) ∧
  in_range (MoveDict.row m) ∧ in_range (MoveDict.col m).

(** The stored game is of the types [GameStatusResponse] declares. *)
Definition fits_schema (g : Game.t) : Prop :=
  marks_only (Game.board g) ∧ Forall valid_move (Game.moves g) ∧ valid_summary g.

(** The entry of [moves] that [make_move] appends for a move. *)
Definition dict_of_move (m : Player.t * Z * Z) : MoveDict.t :=
  {| MoveDict.player := Player.value m.1.1;
     MoveDict.row := m.1.2;
     MoveDict.col := m.2 |}.

(** The winner [make_move] stores with a status. *)
Definition winner_of (s : GameStatus.t) : option string :=
  match s with
  | GameStatus.WINNER_X => Some (Player.value Player.X)
  | GameStatus.WINNER_O => Some (Player.value Player.O)
  | _ => None
  end.

(** The row [make_move] writes for game [g] when the move of [req] gives
    board [b'] with status [s]. *)
Definition moved (g : Game.t) (req : GameMoveRequest.t) (b' : Board)
    (s : GameStatus.t) : Game.t :=
  {| Game.moves :=
       Game.moves g ++
         [dict_of_move (GameMoveRequest.player req, GameMoveRequest.row req,
                        GameMoveRequest.col req)];
     Game.board := b';
     Game.status := GameStatus.value s;
     Game.winner := winner_of s;
     Game.created_at := Game.created_at g;
     Game.finished_at := Game.finished_at g |}.

(** A stored game is consistent with a sequence of moves: replaying the
    moves from the empty board succeeds and gives the stored board, no
    move was accepted after the game had ended, the stored moves are the
    entries of those moves, and status, winner and finish time are the
    ones the board determines. *)
Definition consistent (g : Game.t) (ms : list (Player.t * Z * Z)) : Prop :=
  play_sequence initial_board ms = Some (Game.board g) ∧
  (∀ n, (n < length ms)%nat →
        ∃ b0, play_sequence initial_board (take n ms) = Some b0 ∧
              get_game_status b0 = Ok GameStatus.IN_PROGRESS) ∧
  Game.moves g = dict_of_move <$> ms ∧
  ∃ s, get_game_status (Game.board g) = Ok s ∧
       Game.status g = GameStatus.value s ∧
       Game.winner g = winner_of s ∧
       (terminal s = false → Game.finished_at g = None).

(** A game after four moves, stored as the service stores it: X holds
    (0,0) and (0,1), O holds (1,0) and (1,1), and X is to move. *)
Definition four_moves_game : Game.t :=
  {| Game.moves := [ {| MoveDict.player := "X"; MoveDict.row := 0; MoveDict.col := 0 |};
                     {| MoveDict.player := "O"; MoveDict.row := 1; MoveDict.col := 0 |};
                     {| MoveDict.player := "X"; MoveDict.row := 0; MoveDict.col := 1 |};
                     {| MoveDict.player := "O"; MoveDict.row := 1; MoveDict.col := 1 |} ];
     Game.board := [[mark Player.X; mark Player.X; None];
                    [mark Player.O; mark Player.O; None];
                    [None; None; None]];
     Game.status := "IN_PROGRESS";
     Game.winner := None;
     Game.created_at := Some "2024-01-01 10:00:00";
     Game.finished_at := None |}.

(** The kind of a failure, by the names the specification gives. *)
Definition failure_kind (d : detail) : string :=
  match d with
  | NotFound => "NotFound"
  | GameFinished => "GameFinished"
  | MoveRejected OutOfBounds => "OutOfBounds"
  | MoveRejected CellOccupied => "CellOccupied"
  | MoveRejected (WrongTurn _) => "WrongTurn"
  end.

(** *** Proof steps *)

(** Splits a statement into its cases and closes those that follow by
    equational reasoning. *)
Ltac settle :=
  repeat match goal with
         | |- _ ∧ _ => split
         | |- _ ↔ _ => split
         | |- _ → _ => intro
         | |- ∀ _, _ => intro
         | H : _ ∧ _ |- _ => destruct H
         | H : ∃ _, _ |- _ => destruct H
         end;
  try congruence; try tauto; eauto.

(** ** Python fragment: basic facts *)

Section PyFacts.
Context {A : Type}.
Implicit Types (l : list A) (i : Z).

Lemma getitem_in_range l i x :
  (0 ≤ i)%Z → l !! Z.to_nat i = Some x → getitem l i = Ok x.
Proof.
  intros Hi Hl. unfold getitem.
  destruct (Z.ltb_spec i 0) as [?|_]; [lia|].
  destruct (Z.ltb_spec i 0) as [?|_]; [lia|].
  by rewrite Hl.
Qed.

Lemma setitem_in_range l i x :
  (0 ≤ i)%Z → (Z.to_nat i < length l)%nat →
  setitem l i x = Ok (<[Z.to_nat i := x]> l).
Proof.
  intros Hi Hl. unfold setitem.
  destruct (Z.ltb_spec i 0) as [?|_]; [lia|].
  destruct (Z.ltb_spec i 0) as [?|_]; [lia|].
  destruct (Nat.ltb_spec (Z.to_nat i) (length l)); [done|lia].
Qed.

End PyFacts.

(** ** Boards of the data model *)

Lemma is_grid_inv (b : Board) :
  is_grid b →
  ∃ c00 c01 c02 c10 c11 c12 c20 c21 c22,
    b = [[c00; c01; c02]; [c10; c11; c12]; [c20; c21; c22]].
Proof.
  intros [Hlen Hrows].
  destruct b as [|r0 [|r1 [|r2 [|]]]]; try discriminate.
  repeat match goal with
         | H : Forall _ (_ :: _) |- _ => apply Forall_cons in H; destruct H
         end.
  destruct r0 as [|? [|? [|? [|]]]]; try discriminate.
  destruct r1 as [|? [|? [|? [|]]]]; try discriminate.
  destruct r2 as [|? [|? [|? [|]]]]; try discriminate.
  by repeat eexists.
Qed.

Lemma is_grid_9 (c00 c01 c02 c10 c11 c12 c20 c21 c22 : cell) :
  is_grid [[c00; c01; c02]; [c10; c11; c12]; [c20; c21; c22]].
Proof. split; [done|]. by repeat constructor. Qed.

Lemma in_range_cases (i : Z) : in_range i → i = 0%Z ∨ i = 1%Z ∨ i = 2%Z.
Proof. unfold in_range. lia. Qed.

Lemma bounds_check (row col : Z) :
  (row <? 0)%Z || (row >? 2)%Z || (col <? 0)%Z || (col >? 2)%Z = false
  ↔ in_range row ∧ in_range col.
Proof.
  unfold in_range.
  rewrite !orb_false_iff, !Z.ltb_ge, !Z.gtb_ltb, !Z.ltb_ge. lia.
Qed.

Lemma Player_eqb_decide (p q : Player.t) : Player.eqb p q = bool_decide (p = q).
Proof. by destruct p, q. Qed.

Lemma grid_cell (b : Board) (i j : Z) :
  is_grid b → in_range i → in_range j →
  ∃ r c, b !! Z.to_nat i = Some r ∧ length r = 3%nat ∧ r !! Z.to_nat j = Some c.
Proof.
  intros [Hlen Hrows] Hi Hj. unfold in_range in *.
  destruct (lookup_lt_is_Some_2 b (Z.to_nat i)) as [r Hr]; [lia|].
  pose proof (Forall_lookup_1 _ _ _ _ Hrows Hr) as Hr3. simpl in Hr3.
  destruct (lookup_lt_is_Some_2 r (Z.to_nat j)) as [c Hc]; [lia|].
  by exists r, c.
Qed.

Lemma cell_at_lookup (b : Board) (i j : Z) (r : list cell) :
  (0 ≤ i)%Z → (0 ≤ j)%Z → b !! Z.to_nat i = Some r →
  cell_at b i j = r !! Z.to_nat j.
Proof.
  intros Hi Hj Hr. unfold cell_at.
  destruct (Z.ltb_spec i 0); [lia|]. destruct (Z.ltb_spec j 0); [lia|].
  simpl. by rewrite Hr.
Qed.

Lemma play_move_outcome (b : Board) (row col : Z) (player : Player.t) :
  is_grid b → play_move b row col player = Ok (move_outcome b row col player).
Proof.
  intros Hb. unfold play_move, move_outcome.
  destruct (_ || _) eqn:Hbounds.
  - rewrite decide_False; [done|].
    intros Hr%bounds_check. congruence.
  - apply bounds_check in Hbounds as Hr. rewrite decide_True by done.
    destruct Hr as [Hrow Hcol].
    destruct (grid_cell b row col Hb Hrow Hcol) as (r & c & Hr & Hlen & Hc).
    unfold in_range in *.
    rewrite (cell_at_lookup b row col r), Hc by (done || lia).
    rewrite (getitem_in_range b row r) by (done || lia). cbn.
    rewrite (getitem_in_range r col c) by (done || lia). cbn.
    destruct c as [s|]; [done|]. cbn.
    rewrite Player_eqb_decide.
    destruct (decide (player = _)) as [Heq|Hne].
    + rewrite bool_decide_eq_true_2 by done. cbn.
      rewrite (setitem_in_range r col) by lia. cbn.
      rewrite (setitem_in_range b row) by (destruct Hb; lia). cbn.
      unfold place. by rewrite Hr.
    + by rewrite bool_decide_eq_false_2.
Qed.

(** ** The order of the checks of [play_move] *)

Lemma move_outcome_error (b : Board) (row col : Z) (player : Player.t) :
  let err := (move_outcome b row col player).2 in
  is_grid b →
  (err = Some OutOfBounds ↔ ¬ (in_range row ∧ in_range col)) ∧
  (err = Some CellOccupied ↔
     in_range row ∧ in_range col ∧ ∃ s, cell_at b row col = Some (Some s)) ∧
  (err = Some (WrongTurn (get_next_player b)) ↔
     in_range row ∧ in_range col ∧ cell_at b row col = Some None ∧
     player ≠ get_next_player b) ∧
  (∀ p, err = Some (WrongTurn p) → p = get_next_player b) ∧
  (err = None ↔
     in_range row ∧ in_range col ∧ cell_at b row col = Some None ∧
     player = get_next_player b).
Proof.
  intros err Hb. subst err. unfold move_outcome.
  destruct (decide (in_range row ∧ in_range col)) as [[Hrow Hcol]|Hout]; simpl.
  - destruct (grid_cell b row col Hb Hrow Hcol) as (r & c & Hr & Hlen & Hc).
    rewrite (cell_at_lookup b row col r), Hc
      by (done || unfold in_range in *; lia).
    destruct c as [s|]; simpl; [settle|].
    destruct (decide (player = get_next_player b)); simpl; settle.
  - settle.
Qed.

(** C1. On a 3x3 board [play_move] reports [OutOfBounds] exactly when the
    row or the column is outside 0..2, otherwise [CellOccupied] exactly
    when the target cell is not empty, otherwise [WrongTurn] exactly when
    the player is not the next one, and otherwise it succeeds; so an
    occupied cell is reported before a wrong turn, as when X plays (0,0)
    twice in a row. *)
Theorem C1_play_move_check_order :
  (∀ (b : Board) (row col : Z) (player : Player.t),
     is_grid b →
     ∃ b' err,
       play_move b row col player = Ok (b', err) ∧
       (err = Some OutOfBounds ↔ ¬ (in_range row ∧ in_range col)) ∧
       (err = Some CellOccupied ↔
          in_range row ∧ in_range col ∧ ∃ s, cell_at b row col = Some (Some s)) ∧
       (err = Some (WrongTurn (get_next_player b)) ↔
          in_range row ∧ in_range col ∧ cell_at b row col = Some None ∧
          player ≠ get_next_player b) ∧
       (∀ p, err = Some (WrongTurn p) → p = get_next_player b) ∧
       (err = None ↔
          in_range row ∧ in_range col ∧ cell_at b row col = Some None ∧
          player = get_next_player b)) ∧
  (∃ b1,
     play_move initial_board 0 0 Player.X = Ok (b1, None) ∧
     get_next_player b1 = Player.O ∧
     play_move b1 0 0 Player.X = Ok (b1, Some CellOccupied)).
Proof.
  split.
  - intros b row col player Hb.
    exists (move_outcome b row col player).1, (move_outcome b row col player).2.
    split.
    + rewrite play_move_outcome by done. by destruct (move_outcome _ _ _ _).
    + by apply move_outcome_error.
  - eexists. split; [vm_compute; reflexivity|]. split; vm_compute; reflexivity.
Qed.

(** The second X at (0,0): the cell is taken and it is O's turn, and the
    report is [CellOccupied]. *)
Lemma C1_play_move_check_order_witness :
  is_grid [[mark Player.X; None; None]; [None; None; None]; [None; None; None]] ∧
  ∃ b' err,
    play_move [[mark Player.X; None; None]; [None; None; None]; [None; None; None]]
              0 0 Player.X = Ok (b', err) ∧
    err = Some CellOccupied.
Proof.
  split; [apply is_grid_9|].
  destruct (proj1 C1_play_move_check_order
              [[mark Player.X; None; None]; [None; None; None]; [None; None; None]]
              0%Z 0%Z Player.X (is_grid_9 _ _ _ _ _ _ _ _ _))
    as (b' & err & Hplay & _ & Hocc & _).
  exists b', err. split; [exact Hplay|].
  apply Hocc. unfold in_range. repeat split; try lia. by eexists.
Defined.

(** ** The turn-order invariant *)

Lemma place_counts (b : Board) (row col : Z) (p : Player.t) :
  is_grid b → in_range row → in_range col → cell_at b row col = Some None →
  is_grid (place b row col p) ∧
  x_count (place b row col p) = (x_count b + int_of_bool (Player.eqb p Player.X))%Z ∧
  o_count (place b row col p) = (o_count b + int_of_bool (Player.eqb p Player.O))%Z.
Proof.
  intros Hb Hrow Hcol Hcell.
  destruct (is_grid_inv _ Hb) as (c00&c01&c02&c10&c11&c12&c20&c21&c22&->).
  apply in_range_cases in Hrow as [->|[->| ->]];
    apply in_range_cases in Hcol as [->|[->| ->]];
    injection Hcell as ->;
    (split; [apply is_grid_9|]);
    unfold x_count, o_count, cells, sum, place;
    change (Z.to_nat 0) with 0%nat; change (Z.to_nat 1) with 1%nat;
    change (Z.to_nat 2) with 2%nat;
    destruct p; cbn; lia.
Qed.

Lemma play_move_success (b b' : Board) (row col : Z) (player : Player.t) :
  is_grid b → play_move b row col player = Ok (b', None) →
  in_range row ∧ in_range col ∧ cell_at b row col = Some None ∧
  player = get_next_player b ∧ b' = place b row col player.
Proof.
  intros Hb. rewrite play_move_outcome by done. unfold move_outcome.
  destruct (decide _) as [[Hrow Hcol]|]; [|congruence].
  destruct (grid_cell b row col Hb Hrow Hcol) as (r & c & Hr & Hlen & Hc).
  rewrite (cell_at_lookup b row col r), Hc
    by (done || unfold in_range in *; lia).
  destruct c; [congruence|].
  destruct (decide _); [|congruence].
  intros [= <-]. done.
Qed.

Lemma initial_board_counts :
  is_grid initial_board ∧ x_count initial_board = 0%Z ∧ o_count initial_board = 0%Z.
Proof. split; [apply is_grid_9|]. by vm_compute. Qed.

(** C5. Every board that successful [play_move] calls produce from
    [initial_board()] has as many X marks as O marks or one more, and is
    a 3x3 grid. *)
Theorem C5_turn_order_invariant (b : Board) :
  reachable b →
  ((x_count b - o_count b = 0)%Z ∨ (x_count b - o_count b = 1)%Z) ∧ is_grid b.
Proof.
  induction 1 as [|b row col player b' Hreach [Hdiff Hb] Hplay].
  - destruct initial_board_counts as (Hb & -> & ->). by split; [left|].
  - destruct (play_move_success _ _ _ _ _ Hb Hplay)
      as (Hrow & Hcol & Hcell & Hturn & ->).
    destruct (place_counts b row col player Hb Hrow Hcol Hcell) as (Hb' & Hx & Ho).
    split; [|done]. rewrite Hx, Ho.
    unfold get_next_player in Hturn.
    destruct (Z.gtb_spec (x_count b) (o_count b)); subst player; simpl; lia.
Qed.

(** The invariant at the board after X's opening move. *)
Lemma C5_turn_order_invariant_witness :
  let b := [[mark Player.X; None; None]; [None; None; None]; [None; None; None]] in
  reachable b ∧
  ((x_count b - o_count b = 0)%Z ∨ (x_count b - o_count b = 1)%Z) ∧ is_grid b.
Proof.
  assert (reachable
            [[mark Player.X; None; None]; [None; None; None]; [None; None; None]])
    as Hreach.
  { eapply (reachable_move initial_board 0 0 Player.X); [apply reachable_initial|].
    vm_compute. reflexivity. }
  split; [exact Hreach|].
  exact (C5_turn_order_invariant _ Hreach).
Defined.

(** ** Two complete games *)

(** C7. From the empty board the moves (X,0,0), (O,1,0), (X,0,1), (O,1,1),
    (X,0,2) all succeed, the status of the board they leave is WINNER_X
    and its row 0 is [X, X, X]. *)
Theorem C7_winning_sequence_for_X :
  ∃ b,
    play_sequence initial_board
      [(Player.X, 0, 0); (Player.O, 1, 0); (Player.X, 0, 1);
       (Player.O, 1, 1); (Player.X, 0, 2)]%Z = Some b ∧
    get_game_status b = Ok GameStatus.WINNER_X ∧
    getitem b 0 = Ok [mark Player.X; mark Player.X; mark Player.X] ∧
    b = [[mark Player.X; mark Player.X; mark Player.X];
         [mark Player.O; mark Player.O; None];
         [None; None; None]].
Proof. eexists. repeat split; vm_compute; reflexivity. Qed.

(** C8. From the empty board the nine moves X:(0,0) O:(0,1) X:(0,2)
    O:(1,1) X:(1,0) O:(1,2) X:(2,1) O:(2,0) X:(2,2) all succeed, and the
    board they leave has status DRAW and no winner. *)
Theorem C8_draw_sequence :
  ∃ b,
    play_sequence initial_board
      [(Player.X, 0, 0); (Player.O, 0, 1); (Player.X, 0, 2);
       (Player.O, 1, 1); (Player.X, 1, 0); (Player.O, 1, 2);
       (Player.X, 2, 1); (Player.O, 2, 0); (Player.X, 2, 2)]%Z = Some b ∧
    get_game_status b = Ok GameStatus.DRAW ∧
    check_winner b = Ok None ∧
    is_draw b = Ok true ∧
    b = [[mark Player.X; mark Player.O; mark Player.X];
         [mark Player.X; mark Player.O; mark Player.O];
         [mark Player.O; mark Player.X; mark Player.X]].
Proof. eexists. repeat split; vm_compute; reflexivity. Qed.

(** ** The scan of [check_winner] *)

Lemma scan_order_lines : lines ++ cols ++ diags = scan_order.
Proof. reflexivity. Qed.

Lemma cell_eqb_decide (c d : cell) : cell_eqb c d = bool_decide (c = d).
Proof.
  destruct c as [s|], d as [s'|]; simpl; try done.
  destruct (String.eqb_spec s s') as [->|Hne].
  - by rewrite bool_decide_eq_true_2.
  - rewrite bool_decide_eq_false_2; [done|congruence].
Qed.

Lemma cell_is_decide (p : Player.t) (c : cell) :
  cell_is p c = bool_decide (c = mark p).
Proof.
  destruct c as [s|]; simpl; [|done]. unfold mark.
  destruct (String.eqb_spec s (Player.value p)) as [->|Hne].
  - by rewrite bool_decide_eq_true_2.
  - rewrite bool_decide_eq_false_2; [done|congruence].
Qed.

Lemma forallb_pointwise {A} (f g : A → bool) (l : list A) :
  (∀ x, f x = g x) → forallb f l = forallb g l.
Proof. intros Hfg. induction l as [|x l IH]; simpl; [done|]. by rewrite Hfg, IH. Qed.

Lemma judge_marks (marks : list cell) :
  marks ≠ [] →
  judge marks =
    if forallb (fun c => bool_decide (c = mark Player.X)) marks then Some Player.X
    else if forallb (fun c => bool_decide (c = mark Player.O)) marks then Some Player.O
    else None.
Proof.
  destruct marks as [|first rest]; [done|]. intros _.
  unfold judge. rewrite !cell_is_decide.
  rewrite (forallb_pointwise _ (fun c => bool_decide (c = first)))
    by (intros; apply cell_eqb_decide).
  cbn [forallb].
  assert (truthy (mark Player.X) = true) as HtX by done.
  assert (truthy (mark Player.O) = true) as HtO by done.
  assert (mark Player.X ≠ mark Player.O) as Hdiff by done.
  repeat case_bool_decide; subst; rewrite ?HtX, ?HtO; try done;
    cbn [andb]; try (by destruct (forallb _ rest));
    by destruct (truthy first && _).
Qed.

Lemma line_marks_grid (b : Board) (line : list (Z * Z)) :
  is_grid b → Forall (fun ij => in_range ij.1 ∧ in_range ij.2) line →
  ∃ marks,
    line_marks b line = Ok marks ∧
    Forall2 (fun ij c => cell_at b ij.1 ij.2 = Some c) line marks.
Proof.
  intros Hb. induction 1 as [|[i j] line [Hi Hj] _ (marks & Hmarks & Hall)].
  - by exists [].
  - destruct (grid_cell b i j Hb Hi Hj) as (r & c & Hr & Hlen & Hc).
    exists (c :: marks). unfold in_range in *. simpl in *. split.
    + unfold line_marks in *. cbn.
      rewrite (getitem_in_range b i r) by (done || lia). cbn.
      rewrite (getitem_in_range r j c) by (done || lia). cbn.
      by rewrite Hmarks.
    + constructor; [|done]. simpl.
      by rewrite (cell_at_lookup b i j r) by (done || lia).
Qed.

Lemma judge_line_mark (b : Board) (line : list (Z * Z)) (marks : list cell) :
  line ≠ [] →
  Forall2 (fun ij c => cell_at b ij.1 ij.2 = Some c) line marks →
  judge marks = line_mark b line.
Proof.
  intros Hne Hall. rewrite judge_marks.
  - unfold line_mark.
    assert (∀ p, forallb (fun c => bool_decide (c = mark p)) marks
                 = forallb (fun ij => bool_decide (cell_at b ij.1 ij.2 = Some (mark p))) line)
      as Hsame.
    { intros p. clear Hne. induction Hall as [|ij c line marks Hc _ IH]; [done|].
      simpl. rewrite IH, Hc. f_equal. apply bool_decide_ext. split; congruence. }
    by rewrite !Hsame.
  - intros ->. by inversion Hall; subst.
Qed.

Lemma check_lines_first_line_mark (b : Board) (todo : list (list (Z * Z))) :
  is_grid b →
  Forall (fun line => line ≠ [] ∧ Forall (fun ij => in_range ij.1 ∧ in_range ij.2) line)
         todo →
  check_lines b todo = Ok (first_line_mark b todo).
Proof.
  intros Hb. induction 1 as [|line todo [Hne Hline] _ IH]; [done|].
  destruct (line_marks_grid b line Hb Hline) as (marks & Hmarks & Hall).
  pose proof (judge_line_mark b line marks Hne Hall) as Hjudge.
  simpl. rewrite Hmarks. cbn. rewrite <- Hjudge.
  destruct marks as [|first rest]; [by inversion Hall; subst|].
  change (Z.to_nat 0) with 0%nat. cbn. rewrite IH. unfold judge.
  destruct (truthy first && _); [|done].
  destruct (cell_is Player.X first); [done|].
  by destruct (cell_is Player.O first).
Qed.

Lemma scan_order_in_range :
  Forall (fun line => line ≠ [] ∧ Forall (fun ij => in_range ij.1 ∧ in_range ij.2) line)
         scan_order.
Proof. repeat constructor; (done || simpl; lia). Qed.

Lemma check_winner_first_line_mark (b : Board) :
  is_grid b → check_winner b = Ok (first_line_mark b scan_order).
Proof.
  intros Hb. unfold check_winner. rewrite scan_order_lines.
  apply check_lines_first_line_mark; [done|apply scan_order_in_range].
Qed.

(** ** Lines filled by one mark *)

Lemma complete_decide (b : Board) (line : list (Z * Z)) (p : Player.t) :
  forallb (fun ij => bool_decide (cell_at b ij.1 ij.2 = Some (mark p))) line = true
  ↔ complete b line p.
Proof.
  unfold complete. rewrite forallb_forall. split.
  - intros Hall ij Hin%list_elem_of_In. by eapply bool_decide_eq_true_1, Hall.
  - intros Hall ij Hin%list_elem_of_In. by apply bool_decide_eq_true_2, Hall.
Qed.

Lemma complete_one_player (b : Board) (line : list (Z * Z)) (p q : Player.t) :
  line ≠ [] → complete b line p → complete b line q → p = q.
Proof.
  destruct line as [|ij line]; [done|]. intros _ Hp Hq.
  specialize (Hp ij (list_elem_of_here _ _)).
  specialize (Hq ij (list_elem_of_here _ _)).
  rewrite Hp in Hq. by destruct p, q.
Qed.

Lemma line_mark_complete (b : Board) (line : list (Z * Z)) (p : Player.t) :
  line ≠ [] → line_mark b line = Some p ↔ complete b line p.
Proof.
  intros Hne. unfold line_mark.
  destruct (forallb _ line) eqn:HX; simpl.
  { apply complete_decide in HX. split.
    - by intros [= <-].
    - intros Hp. f_equal. by eapply complete_one_player. }
  destruct (forallb (fun ij => bool_decide (_ = Some (mark Player.O))) line) eqn:HO;
    simpl.
  { apply complete_decide in HO. split.
    - by intros [= <-].
    - intros Hp. f_equal. by eapply complete_one_player. }
  split; [done|]. intros Hp%complete_decide.
  destruct p; congruence.
Qed.

Lemma cell_at_is_mark (b : Board) (i j : Z) (c : cell) :
  marks_only b → cell_at b i j = Some c → is_mark c.
Proof.
  unfold marks_only, cell_at. intros Hb.
  destruct (_ || _); [done|].
  destruct (b !! Z.to_nat i) as [r|] eqn:Hr; [|done]. simpl. intros Hc.
  eapply Forall_lookup_1; [|exact Hc].
  eapply (Forall_lookup_1 _ b); [exact Hb|exact Hr].
Qed.

Lemma complete_filled_alike (b : Board) (line : list (Z * Z)) (p : Player.t) :
  complete b line p → filled_alike b line.
Proof. intros Hp. exists (Player.value p). exact Hp. Qed.

Lemma filled_alike_complete (b : Board) (line : list (Z * Z)) :
  marks_only b → line ≠ [] → filled_alike b line → ∃ p, complete b line p.
Proof.
  intros Hb Hne [s Hs]. destruct line as [|ij line]; [done|].
  pose proof (Hs ij (list_elem_of_here _ _)) as Hij.
  destruct (cell_at_is_mark _ _ _ _ Hb Hij) as [|[p Hp]]; [done|].
  exists p. intros ij' Hin. rewrite (Hs ij' Hin). by rewrite Hp.
Qed.

Lemma line_mark_none (b : Board) (line : list (Z * Z)) :
  marks_only b → line ≠ [] → line_mark b line = None ↔ ¬ filled_alike b line.
Proof.
  intros Hb Hne. split.
  - intros Hnone Halike.
    destruct (filled_alike_complete b line Hb Hne Halike) as [p Hp].
    apply (line_mark_complete b line p Hne) in Hp. congruence.
  - intros Hnot. destruct (line_mark b line) as [p|] eqn:Hp; [|done].
    exfalso. apply Hnot. eapply complete_filled_alike.
    by apply (line_mark_complete b line p Hne).
Qed.

Lemma first_line_mark_some (b : Board) (todo : list (list (Z * Z))) (p : Player.t) :
  first_line_mark b todo = Some p ↔
  ∃ k line,
    todo !! k = Some line ∧ line_mark b line = Some p ∧
    ∀ k' line', (k' < k)%nat → todo !! k' = Some line' → line_mark b line' = None.
Proof.
  induction todo as [|l todo IH]; simpl.
  { split; [done|]. by intros (k & line & Hk & _). }
  destruct (line_mark b l) as [q|] eqn:Hl.
  - split.
    + intros [= ->]. exists 0%nat, l. split_and!; [done..|]. intros; lia.
    + intros (k & line & Hk & Hline & Hbefore). destruct k as [|k].
      * simpl in Hk. congruence.
      * specialize (Hbefore 0%nat l ltac:(lia) eq_refl). congruence.
  - rewrite IH. split.
    + intros (k & line & Hk & Hline & Hbefore).
      exists (S k), line. split_and!; [done..|].
      intros [|k'] line' Hlt Hk'; simpl in Hk'; [congruence|].
      apply (Hbefore k'); [lia|done].
    + intros (k & line & Hk & Hline & Hbefore). destruct k as [|k].
      * simpl in Hk. congruence.
      * exists k, line. split_and!; [done..|].
        intros k' line' Hlt Hk'. apply (Hbefore (S k')); [lia|done].
Qed.

Lemma first_line_mark_none (b : Board) (todo : list (list (Z * Z))) :
  first_line_mark b todo = None ↔ ∀ line, line ∈ todo → line_mark b line = None.
Proof.
  induction todo as [|l todo IH]; simpl.
  { split; [|done]. by intros _ line Hin%elem_of_nil. }
  destruct (line_mark b l) as [q|] eqn:Hl.
  - split; [done|]. intros Hall.
    specialize (Hall l (list_elem_of_here _ _)). congruence.
  - rewrite IH. split.
    + intros Hall line [->|Hin]%elem_of_cons; [done|by apply Hall].
    + intros Hall line Hin. apply Hall. by apply list_elem_of_further.
Qed.

Lemma scan_order_nonempty (k : nat) (line : list (Z * Z)) :
  scan_order !! k = Some line → line ≠ [].
Proof.
  intros Hk. pose proof scan_order_in_range as Hall.
  by destruct (Forall_lookup_1 _ _ _ _ Hall Hk).
Qed.

(** C3. On every 3x3 board whose cells are empty or hold a mark,
    [check_winner] returns without raising; it returns the mark of the
    first line, in the order rows 0-2, columns 0-2, main diagonal,
    anti-diagonal, whose cells are non-empty and identical, and [None]
    exactly when there is no such line. *)
Theorem C3_check_winner_first_line (b : Board) :
  is_grid b → marks_only b →
  lines ++ cols ++ diags = scan_order ∧
  ∃ w,
    check_winner b = Ok w ∧
    (∀ p, w = Some p ↔
          ∃ k line,
            scan_order !! k = Some line ∧ complete b line p ∧
            ∀ k' line',
              (k' < k)%nat → scan_order !! k' = Some line' → ¬ filled_alike b line') ∧
    (w = None ↔ ∀ line, line ∈ scan_order → ¬ filled_alike b line).
Proof.
  intros Hb Hmarks. split; [apply scan_order_lines|].
  exists (first_line_mark b scan_order).
  split; [by apply check_winner_first_line_mark|]. split.
  - intros p. rewrite first_line_mark_some. split.
    + intros (k & line & Hk & Hline & Hbefore). exists k, line.
      split_and!; [done| |].
      * by apply line_mark_complete; [eapply scan_order_nonempty|].
      * intros k' line' Hlt Hk'.
        apply line_mark_none; [done|by eapply scan_order_nonempty|by eapply Hbefore].
    + intros (k & line & Hk & Hline & Hbefore). exists k, line.
      split_and!; [done| |].
      * by apply line_mark_complete; [eapply scan_order_nonempty|].
      * intros k' line' Hlt Hk'.
        apply line_mark_none; [done|by eapply scan_order_nonempty|by eapply Hbefore].
  - rewrite first_line_mark_none. split.
    + intros Hall line Hin. pose proof Hin as [k Hk]%list_elem_of_lookup.
      apply line_mark_none; [done|by eapply scan_order_nonempty|by apply Hall].
    + intros Hall line Hin. pose proof Hin as [k Hk]%list_elem_of_lookup.
      apply line_mark_none; [done|by eapply scan_order_nonempty|by apply Hall].
Qed.

(** A board that is not reachable by play: row 0 is filled by O, row 1
    by X, and the scan reports the first of them. *)
Lemma C3_check_winner_first_line_witness :
  let b := [[mark Player.O; mark Player.O; mark Player.O];
            [mark Player.X; mark Player.X; mark Player.X];
            [None; None; None]] in
  is_grid b ∧ marks_only b ∧ check_winner b = Ok (Some Player.O).
Proof.
  cbv zeta.
  assert (marks_only [[mark Player.O; mark Player.O; mark Player.O];
                      [mark Player.X; mark Player.X; mark Player.X];
                      [None; None; None]]) as Hmarks.
  { unfold marks_only.
    repeat (apply Forall_cons_2 || apply Forall_nil_2);
      solve [by left | right; by eexists]. }
  split; [apply is_grid_9|]. split; [exact Hmarks|].
  destruct (C3_check_winner_first_line _ (is_grid_9 _ _ _ _ _ _ _ _ _) Hmarks)
    as (_ & w & Hw & Hsome & _).
  assert (w = Some Player.O) as <-; [|exact Hw].
  apply Hsome.
  exists 0%nat, [(0, 0); (0, 1); (0, 2)]%Z. split; [reflexivity|]. split.
  - intros ij Hin. repeat (apply elem_of_cons in Hin as [->|Hin]); try reflexivity.
    by apply elem_of_nil in Hin.
  - intros k' line' Hlt. lia.
Defined.

(** A cell may hold a string that is no mark; such a string filling a
    line is not reported, which is why the scan is stated for boards of
    marks. *)
Remark check_winner_foreign_string :
  let b := [[Some "Z"; Some "Z"; Some "Z"]; [None; None; None]; [None; None; None]] in
  is_grid b ∧ filled_alike b [(0, 0); (0, 1); (0, 2)]%Z ∧ check_winner b = Ok None.
Proof.
  cbv zeta. split; [apply is_grid_9|]. split; [|reflexivity].
  exists "Z". intros ij Hin.
  repeat (apply elem_of_cons in Hin as [->|Hin]); try reflexivity.
  by apply elem_of_nil in Hin.
Qed.

(** ** Draws and the status of a board *)

Lemma no_empty_cell (b : Board) : existsb is_none (cells b) = false ↔ full b.
Proof.
  unfold cells, full. induction b as [|r b IH]; simpl.
  { split; [constructor|done]. }
  rewrite existsb_app, orb_false_iff, IH, Forall_cons.
  apply and_iff_compat_r. clear IH.
  induction r as [|c r IH]; simpl.
  { split; [constructor|done]. }
  rewrite orb_false_iff, IH, Forall_cons.
  apply and_iff_compat_r. destruct c; simpl; split; congruence.
Qed.

(** C4. On every 3x3 board [is_draw] is true exactly when no cell is
    empty and [check_winner] finds no winner; [get_game_status] is
    WINNER_X or WINNER_O when [check_winner] finds that winner, whether
    or not the board is full, and otherwise DRAW when [is_draw] holds and
    IN_PROGRESS when it does not. *)
Theorem C4_draw_and_status (b : Board) :
  is_grid b →
  ∃ w d s,
    check_winner b = Ok w ∧ is_draw b = Ok d ∧ get_game_status b = Ok s ∧
    (d = true ↔ full b ∧ w = None) ∧
    (w = Some Player.X → s = GameStatus.WINNER_X) ∧
    (w = Some Player.O → s = GameStatus.WINNER_O) ∧
    (w = None → d = true → s = GameStatus.DRAW) ∧
    (w = None → d = false → s = GameStatus.IN_PROGRESS).
Proof.
  intros Hb. pose proof (check_winner_first_line_mark b Hb) as Hw.
  unfold get_game_status, is_draw. rewrite Hw. clear Hw.
  generalize (first_line_mark b scan_order). intros w. cbn.
  destruct (existsb is_none (cells b)) eqn:Hcells.
  - assert (¬ full b) as Hfull.
    { intros Hfull%no_empty_cell. congruence. }
    destruct w as [[|]|]; cbn;
      eexists _, _, _; (split_and!; [reflexivity..| | | | |]); settle.
  - apply no_empty_cell in Hcells.
    destruct w as [[|]|]; cbn;
      eexists _, _, _; (split_and!; [reflexivity..| | | | |]); settle.
Qed.

(** A full board on which X has filled the main diagonal: the status is
    WINNER_X and [is_draw] is false. *)
Lemma C4_draw_and_status_witness :
  let b := [[mark Player.X; mark Player.O; mark Player.X];
            [mark Player.O; mark Player.X; mark Player.O];
            [mark Player.O; mark Player.X; mark Player.X]] in
  is_grid b ∧
  ∃ w d s,
    check_winner b = Ok w ∧ is_draw b = Ok d ∧ get_game_status b = Ok s ∧
    w = Some Player.X ∧ d = false ∧ s = GameStatus.WINNER_X.
Proof.
  cbv zeta. split; [apply is_grid_9|].
  destruct (C4_draw_and_status
              [[mark Player.X; mark Player.O; mark Player.X];
               [mark Player.O; mark Player.X; mark Player.O];
               [mark Player.O; mark Player.X; mark Player.X]]
              (is_grid_9 _ _ _ _ _ _ _ _ _))
    as (w & d & s & Hw & Hd & Hs & Hiff & HX & _).
  exists w, d, s. split; [exact Hw|]. split; [exact Hd|]. split; [exact Hs|].
  assert (w = Some Player.X) as Hwin.
  { vm_compute in Hw. congruence. }
  split; [exact Hwin|]. split; [|by apply HX].
  destruct d; [|done]. destruct (proj1 Hiff eq_refl) as [_ Hnone]. congruence.
Defined.

(** ** [play_move] on Python objects *)

Lemma extends_app (h tail : heap) : extends h (h ++ tail).
Proof. intros l o Hl. by apply lookup_app_l_Some. Qed.

Lemma load_row_extends (h h' : heap) (l : loc) (cs : list cell) :
  extends h h' → load_row h l = Ok cs → load_row h' l = Ok cs.
Proof.
  unfold load_row. intros Hext.
  destruct (h !! l) as [[cs'|rows]|] eqn:Hl; try done.
  intros [= ->]. by rewrite (Hext _ _ Hl).
Qed.

Lemma load_board_extends (h h' : heap) (l : loc) (rows : list loc) :
  extends h h' → load_board h l = Ok rows → load_board h' l = Ok rows.
Proof.
  unfold load_board. intros Hext.
  destruct (h !! l) as [[cs|rows']|] eqn:Hl; try done.
  intros [= ->]. by rewrite (Hext _ _ Hl).
Qed.

Lemma mapM_cons_Ok {A B} (f : A → result B) (x : A) (l : list A) (ys : list B) :
  mapM f (x :: l) = Ok ys ↔ ∃ y ys', f x = Ok y ∧ mapM f l = Ok ys' ∧ ys = y :: ys'.
Proof.
  cbn. destruct (f x) as [y|e]; cbn.
  - destruct (mapM f l) as [ys'|e]; cbn.
    + split; [intros [= <-]; by eauto|]. by intros (? & ? & [= <-] & [= <-] & ->).
    + split; [done|]. by intros (? & ? & _ & ? & _).
  - split; [done|]. by intros (? & ? & ? & _).
Qed.

Lemma mapM_load_row_extends (h h' : heap) (rows : list loc) (vals : Board) :
  extends h h' → mapM (load_row h) rows = Ok vals → mapM (load_row h') rows = Ok vals.
Proof.
  intros Hext. revert vals. induction rows as [|r rows IH]; intros vals; [done|].
  rewrite !mapM_cons_Ok. intros (v & vs & Hv & Hvs & ->).
  exists v, vs. split_and!; [by eapply load_row_extends|by apply IH|done].
Qed.

Lemma read_board_extends (h h' : heap) (b : loc) (value : Board) :
  extends h h' → read_board h b = Ok value → read_board h' b = Ok value.
Proof.
  unfold read_board. intros Hext.
  destruct (load_board h b) as [rows|e] eqn:Hrows; [|done]. cbn.
  rewrite (load_board_extends h h' b rows Hext Hrows). cbn.
  by apply mapM_load_row_extends.
Qed.

Lemma copy_rows_spec (h : heap) (rows : list loc) (vals : Board) :
  mapM (load_row h) rows = Ok vals →
  copy_rows h rows = Ok (h ++ (ORow <$> vals), seq (length h) (length vals)).
Proof.
  revert h vals. induction rows as [|r rows IH]; intros h vals.
  { intros [= <-]. simpl. by rewrite app_nil_r. }
  rewrite mapM_cons_Ok. intros (v & vs & Hv & Hvs & ->).
  simpl. rewrite Hv. cbn.
  rewrite (IH (h ++ [ORow v]) vs)
    by (eapply mapM_load_row_extends; [apply extends_app|done]).
  cbn. rewrite length_app, <- app_assoc. simpl.
  by rewrite Nat.add_1_r.
Qed.

Lemma read_copies (h tail : heap) (vals : Board) :
  mapM (load_row (h ++ (ORow <$> vals) ++ tail)) (seq (length h) (length vals))
  = Ok vals.
Proof.
  revert h. induction vals as [|v vals IH]; intros h; [done|].
  simpl. apply mapM_cons_Ok. exists v, vals. split_and!; [|  |done].
  - unfold load_row. by rewrite list_lookup_middle.
  - specialize (IH (h ++ [ORow v])).
    rewrite length_app, <- app_assoc in IH. simpl in IH.
    by rewrite Nat.add_1_r in IH.
Qed.

Lemma place_cell_at (b : Board) (row col : Z) (p : Player.t) (i j : Z) :
  is_grid b → in_range row → in_range col →
  cell_at (place b row col p) i j =
    if decide (i = row ∧ j = col) then Some (mark p) else cell_at b i j.
Proof.
  intros Hb Hrow Hcol.
  destruct (grid_cell b row col Hb Hrow Hcol) as (r & c & Hr & Hlen & Hc).
  unfold place, cell_at, in_range in *. rewrite Hr.
  destruct (Z.ltb_spec i 0); simpl.
  { rewrite decide_False; [done|lia]. }
  destruct (Z.ltb_spec j 0); simpl.
  { rewrite decide_False; [done|lia]. }
  destruct (decide (Z.to_nat i = Z.to_nat row)) as [Hi|Hi].
  - rewrite Hi, list_lookup_insert_eq by (destruct Hb; lia). simpl.
    rewrite Hr. simpl.
    destruct (decide (Z.to_nat j = Z.to_nat col)) as [Hj|Hj].
    + rewrite Hj, list_lookup_insert_eq by lia.
      rewrite decide_True; [done|lia].
    + rewrite list_lookup_insert_ne by done.
      rewrite decide_False; [done|lia].
  - rewrite list_lookup_insert_ne by done.
    rewrite decide_False; [done|lia].
Qed.

Lemma mapM_Ok_Forall2 {A B} (f : A → result B) (l : list A) (ys : list B) :
  mapM f l = Ok ys → Forall2 (fun x y => f x = Ok y) l ys.
Proof.
  revert ys. induction l as [|x l IH]; intros ys.
  - intros [= <-]. constructor.
  - rewrite mapM_cons_Ok. intros (y & ys' & Hy & Hys & ->).
    constructor; [done|by apply IH].
Qed.

Lemma extends_refl (h : heap) : extends h h.
Proof. by intros l o. Qed.

Lemma insert_copy (h : heap) (vals : Board) (tail : heap) (i : nat) (r : list cell) :
  (i < length vals)%nat →
  <[length h + i := ORow r]> ((h ++ (ORow <$> vals)) ++ tail)
  = (h ++ (ORow <$> <[i := r]> vals)) ++ tail.
Proof.
  intros Hi.
  rewrite insert_app_l by (rewrite length_app, length_fmap; lia).
  by rewrite insert_app_r, list_fmap_insert.
Qed.

Lemma read_new_board (h : heap) (vals : Board) :
  read_board ((h ++ (ORow <$> vals)) ++ [OBoard (seq (length h) (length vals))])
             (length (h ++ (ORow <$> vals)))
  = Ok vals.
Proof.
  unfold read_board, load_board.
  rewrite list_lookup_middle by done. cbn.
  rewrite <- app_assoc. apply read_copies.
Qed.

(** C2. [play_move] changes no object that exists when it is called.  On
    success it returns a new board object whose value is the input's
    except for the target cell, which holds the player's mark; on a
    failure it returns the input object itself and the heap as it was. *)
Theorem C2_play_move_leaves_input (h : heap) (board : loc) (value : Board)
    (row col : Z) (player : Player.t) :
  read_board h board = Ok value → is_grid value →
  ∃ h' board' err value',
    play_move_heap h board row col player = Ok (h', (board', err)) ∧
    play_move value row col player = Ok (value', err) ∧
    extends h h' ∧
    read_board h' board = Ok value ∧
    read_board h' board' = Ok value' ∧
    match err with
    | Some _ => h' = h ∧ board' = board ∧ value' = value
    | None =>
        (length h ≤ board')%nat ∧
        ∀ i j, cell_at value' i j =
               if decide (i = row ∧ j = col) then Some (mark player)
               else cell_at value i j
    end.
Proof.
  intros Hread Hb. pose proof Hread as Hread'.
  unfold read_board in Hread'.
  destruct (load_board h board) as [rows|e] eqn:Hrows; [|done]. cbn in Hread'.
  apply mapM_Ok_Forall2 in Hread' as Hall.
  unfold play_move_heap, play_move.
  destruct (_ || _) eqn:Hbounds.
  { exists h, board, (Some OutOfBounds), value. split_and!; done || apply extends_refl. }
  apply bounds_check in Hbounds as [Hrow Hcol].
  destruct (grid_cell value row col Hb Hrow Hcol) as (r & c & Hr & Hlen & Hc).
  destruct (Forall2_lookup_r _ _ _ _ _ Hall Hr) as (rl & Hrl & Hload).
  assert (0 ≤ row)%Z as Hrow0 by (unfold in_range in Hrow; lia).
  assert (0 ≤ col)%Z as Hcol0 by (unfold in_range in Hcol; lia).
  rewrite Hrows. cbn.
  rewrite (getitem_in_range rows row rl), (getitem_in_range value row r) by done.
  cbn. rewrite Hload. cbn.
  rewrite (getitem_in_range r col c) by done. cbn.
  destruct c as [s|]; cbn.
  { exists h, board, (Some CellOccupied), value. split_and!; done || apply extends_refl. }
  rewrite Hread. cbn.
  destruct (Player.eqb player (get_next_player value)) eqn:Hturn; cbn.
  2:{ exists h, board, (Some (WrongTurn (get_next_player value))), value.
      split_and!; done || apply extends_refl. }
  rewrite (copy_rows_spec h rows value Hread'). cbn.
  assert (length value = 3%nat) as Hlen3 by apply Hb.
  assert (Z.to_nat row < 3)%nat as Hrow3 by (unfold in_range in Hrow; lia).
  assert (Z.to_nat col < 3)%nat as Hcol3 by (unfold in_range in Hcol; lia).
  rewrite (getitem_in_range (seq (length h) (length value)) row
             (length h + Z.to_nat row)%nat)
    by (done || apply lookup_seq_lt; lia).
  cbn.
  assert (load_row ((h ++ (ORow <$> value)) ++
                      [OBoard (seq (length h) (length value))])
                   (length h + Z.to_nat row) = Ok r) as ->.
  { unfold load_row.
    rewrite lookup_app_l by (rewrite length_app, length_fmap; lia).
    rewrite lookup_app_r by lia.
    replace (length h + Z.to_nat row - length h)%nat with (Z.to_nat row) by lia.
    by rewrite list_lookup_fmap, Hr. }
  cbn. rewrite (setitem_in_range r col) by (done || lia). cbn.
  rewrite (setitem_in_range value row) by (done || lia). cbn.
  rewrite insert_copy by lia.
  set (value' := <[Z.to_nat row := <[Z.to_nat col := mark player]> r]> value).
  assert (length value' = length value) as Hlen' by apply length_insert.
  assert (extends h ((h ++ (ORow <$> value')) ++
                       [OBoard (seq (length h) (length value))])) as Hext.
  { rewrite <- app_assoc. apply extends_app. }
  eexists _, _, None, value'. split_and!; [reflexivity|reflexivity|exact Hext| | | |].
  - by eapply read_board_extends.
  - rewrite <- Hlen'.
    replace (length (h ++ (ORow <$> value)))
      with (length (h ++ (ORow <$> value')))
      by (rewrite !length_app, !length_fmap; lia).
    apply read_new_board.
  - rewrite length_app. lia.
  - intros i j.
    replace value' with (place value row col player)
      by (unfold place; by rewrite Hr).
    by apply place_cell_at.
Qed.

(** A board whose three rows are one and the same row object, as
    [[[None] * 3] * 3] builds it: the move leaves that object alone. *)
Lemma C2_play_move_leaves_input_witness :
  let h := [ORow [None; None; None]; OBoard [0; 0; 0]%nat] in
  read_board h 1%nat = Ok initial_board ∧ is_grid initial_board ∧
  ∃ h' board' err value',
    play_move_heap h 1%nat 0 0 Player.X = Ok (h', (board', err)) ∧
    play_move initial_board 0 0 Player.X = Ok (value', err) ∧
    extends h h' ∧
    read_board h' 1%nat = Ok initial_board ∧
    read_board h' board' = Ok value' ∧
    match err with
    | Some _ => h' = h ∧ board' = 1%nat ∧ value' = initial_board
    | None =>
        (length h ≤ board')%nat ∧
        ∀ i j, cell_at value' i j =
               if decide (i = 0%Z ∧ j = 0%Z) then Some (mark Player.X)
               else cell_at initial_board i j
    end.
Proof.
  cbv zeta. split; [reflexivity|]. split; [apply is_grid_9|].
  exact (C2_play_move_leaves_input
           [ORow [None; None; None]; OBoard [0; 0; 0]%nat] 1%nat initial_board
           0%Z 0%Z Player.X eq_refl (is_grid_9 _ _ _ _ _ _ _ _ _)).
Defined.

(** ** Rejected moves *)

Lemma finished_is_terminal (status : string) :
  finished status = true ↔ is_terminal status.
Proof.
  unfold finished, is_terminal. simpl.
  rewrite orb_false_r, !orb_true_iff, !String.eqb_eq. tauto.
Qed.

(** What a call of [make_move] does to the table: nothing, or it replaces
    the row of an unfinished game and returns a response. *)
Lemma make_move_table (game_id : Z) (req : GameMoveRequest.t) (now : timestamp)
    (db : gmap Z Game.t) :
  (make_move game_id req now db).2 = db ∨
  ∃ g g' resp,
    db !! game_id = Some g ∧ finished (Game.status g) = false ∧
    make_move game_id req now db = (Returned resp, <[game_id := g']> db).
Proof.
  unfold make_move, get_game.
  destruct (db !! game_id) as [g|] eqn:Hg; [|by left]. simpl.
  destruct (finished (Game.status g)) eqn:Hfin; [by left|].
  destruct (play_move _ _ _ _) as [[b' [err|]]|e]; [by left| |by left].
  destruct (get_game_status b') as [s|e]; [|by left].
  unfold update_game. rewrite Hg.
  destruct (truthy_text _); [by left|]. rewrite lookup_insert_eq.
  right. by eexists _, _, _.
Qed.






(** ** Messages and request validation *)

(** Every rejection of [play_move] carries a non-empty message, so the
    test [if error:] of [make_move] holds exactly for the rejections. *)
Lemma error_message_nonempty (fmt : Player.t → string) (e : move_error) :
  error_message fmt e ≠ "".
Proof. by destruct e. Qed.

Lemma play_move_in_range (b b' : Board) (row col : Z) (player : Player.t) :
  in_range row → in_range col →
  play_move b row col player ≠ Ok (b', Some OutOfBounds).
Proof.
  intros Hrow Hcol. unfold play_move.
  rewrite (proj2 (bounds_check row col)) by done.
  destruct (getitem b row) as [r|]; [|done]. cbn.
  destruct (getitem r col) as [c|]; [|done]. cbn.
  destruct (negb (is_none c)); [done|].
  destruct (negb (Player.eqb _ _)); [done|].
  destruct (setitem r col _); [|done]. cbn.
  by destruct (setitem b row _).
Qed.

(** A request that passes the field constraints of [GameMoveRequest] is
    never answered with [OutOfBounds]. *)
Lemma validated_move_in_bounds (game_id : Z) (req : GameMoveRequest.t)
    (now : timestamp) (db : gmap Z Game.t) :
  GameMoveRequest.validates req = true →
  (make_move game_id req now db).1 ≠ HTTPException 400 (MoveRejected OutOfBounds).
Proof.
  unfold GameMoveRequest.validates. rewrite !andb_true_iff, !Z.leb_le.
  intros [[[? ?] ?] ?]. unfold make_move.
  destruct (get_game game_id db) as [game|]; [|done].
  destruct (finished _); [done|].
  pose proof (play_move_in_range (GameDict.board game)) as Hplay.
  destruct (play_move _ _ _ _) as [[b' [err|]]|e] eqn:Hmove; [| |done].
  - simpl. intros [= ->]. eapply Hplay; [| |exact Hmove]; unfold in_range; lia.
  - destruct (get_game_status b'); [|done].
    destruct (update_game _ _ _ _ _ _ _) as [[|] db']; [|done].
    by destruct (get_game game_id db').
Qed.

(** ** New games *)

Lemma initial_board_cell (row col : Z) :
  in_range row → in_range col → cell_at initial_board row col = Some None.
Proof.
  intros [->|[->| ->]]%in_range_cases [->|[->| ->]]%in_range_cases; reflexivity.
Qed.

(** The first move on an empty board: only X may make it. *)
Lemma opening_move_by_O (row col : Z) :
  play_move initial_board row col Player.O =
    Ok (initial_board,
        Some (if decide (in_range row ∧ in_range col) then WrongTurn Player.X
              else OutOfBounds)).
Proof.
  rewrite play_move_outcome by apply is_grid_9. unfold move_outcome.
  destruct (decide _) as [[Hrow Hcol]|]; [|done].
  by rewrite initial_board_cell.
Qed.

(** C10. [start_game] does not read its request: two requests, whatever
    their [first_player], start the same game.  The game starts with the
    empty board, no moves, status IN_PROGRESS and no winner; X is the
    next player, and an opening move by O on a cell of the board is
    answered with [WrongTurn], the table being left as it was. *)
Theorem C10_start_game_ignores_first_player
    (req1 req2 : GameCreateRequest.t) (now : timestamp) (db : gmap Z Game.t) :
  start_game req1 now db = start_game req2 now db ∧
  ∃ resp db',
    start_game req1 now db = (Returned resp, db') ∧
    GameStatusResponse.board resp = initial_board ∧
    GameStatusResponse.moves resp = [] ∧
    GameStatusResponse.status resp = "IN_PROGRESS" ∧
    GameStatusResponse.winner resp = None ∧
    get_next_player (GameStatusResponse.board resp) = Player.X ∧
    ∀ (row col : Z) (now' : timestamp),
      make_move (GameStatusResponse.id resp)
                {| GameMoveRequest.player := Player.O;
                   GameMoveRequest.row := row; GameMoveRequest.col := col |}
                now' db'
      = (HTTPException 400
           (MoveRejected (if decide (in_range row ∧ in_range col)
                          then WrongTurn Player.X else OutOfBounds)),
         db').
Proof.
  split; [reflexivity|].
  unfold start_game.
  change (get_game_status initial_board) with (Ok GameStatus.IN_PROGRESS).
  unfold create_game, get_game. rewrite lookup_insert_eq.
  eexists _, _. split; [reflexivity|]. simpl.
  split_and!; try reflexivity.
  intros row col now'. unfold make_move, get_game.
  rewrite lookup_insert_eq. simpl.
  by rewrite opening_move_by_O.
Qed.

(** ** The history of games *)

Lemma strongly_sorted_lookup {A} (R : relation A) (l : list A) (i j : nat) (a b : A) :
  StronglySorted R l → (i < j)%nat → l !! i = Some a → l !! j = Some b → R a b.
Proof.
  intros Hsorted. revert i j.
  induction Hsorted as [|x l _ IH Hx]; intros i j Hij Hi Hj; [done|].
  destruct j as [|j]; [lia|]. destruct i as [|i]; simpl in *.
  - injection Hi as ->. eapply Forall_lookup_1; [exact Hx|exact Hj].
  - apply (IH i j); [lia|done..].
Qed.

Lemma order_by_id_desc_newest_first (db : gmap Z Game.t) :
  newest_first db (order_by_id_desc db).
Proof.
  unfold order_by_id_desc.
  pose proof (merge_sort_Permutation id_desc (map_to_list db)) as Hperm.
  split.
  - intros key g. rewrite Hperm. apply elem_of_map_to_list.
  - intros i j a b Hij Hi Hj.
    pose proof (StronglySorted_merge_sort id_desc (map_to_list db)) as Hsorted.
    pose proof (strongly_sorted_lookup _ _ _ _ _ _ Hsorted Hij Hi Hj) as Hle.
    unfold id_desc in Hle.
    assert (NoDup (merge_sort id_desc (map_to_list db)).*1) as Hnodup.
    { rewrite Hperm. apply NoDup_fst_map_to_list. }
    assert (a.1 ≠ b.1); [|lia]. intros Heq.
    assert (i = j); [|lia].
    apply (NoDup_lookup _ i j a.1 Hnodup).
    + by rewrite list_lookup_fmap, Hi.
    + by rewrite list_lookup_fmap, Hj, Heq.
Qed.

Lemma int64_spec (n : Z) : int64 n = true ↔ (- 2 ^ 63 ≤ n < 2 ^ 63)%Z.
Proof. unfold int64. rewrite andb_true_iff, Z.leb_le, Z.ltb_lt. tauto. Qed.

Lemma valid_summary_validates (key : Z) (g : Game.t) :
  valid_summary g → GameHistoryItem.validates (GameDict.of_row key g) = true.
Proof.
  intros [[s Hs] Hw]. unfold GameHistoryItem.validates. simpl. rewrite Hs.
  apply andb_true_iff. split; [by destruct s|].
  destruct Hw as [->|[p ->]]; [done|by destruct p].
Qed.

(** The items the comprehension of [list_game_history] builds for rows
    whose status and winner are of the declared types. *)
Lemma history_items (rows : list (Z * Game.t)) :
  Forall (fun r => valid_summary r.2) rows →
  mapM GameHistoryItem.make (map (fun r => GameDict.of_row r.1 r.2) rows)
  = Ok (summary <$> rows).
Proof.
  induction 1 as [|[key g] rows Hg _ IH]; [done|].
  cbn [map mapM]. rewrite IH. unfold GameHistoryItem.make.
  by rewrite valid_summary_validates.
Qed.

Lemma list_game_history_page (db : gmap Z Game.t) (limit offset : Z) :
  (0 ≤ limit < 2 ^ 63)%Z → (- 2 ^ 63 ≤ offset < 2 ^ 63)%Z →
  (∀ key g, db !! key = Some g → valid_summary g) →
  list_game_history limit offset db =
    Ok (summary <$> take (Z.to_nat limit) (drop (Z.to_nat offset) (order_by_id_desc db))).
Proof.
  intros Hlimit Hoffset Hvalid. unfold list_game_history, list_games.
  rewrite (proj2 (int64_spec limit)), (proj2 (int64_spec offset)) by lia.
  cbn [andb mbind result_bind]. unfold sql_limit, sql_offset.
  destruct (Z.ltb_spec limit 0); [lia|].
  apply history_items.
  apply Forall_forall. intros [key g] Hin. simpl. apply (Hvalid key).
  apply (proj1 (order_by_id_desc_newest_first db)).
  eapply subseteq_drop, subseteq_take. exact Hin.
Qed.

Lemma foldr_max_ge (k : Z) (ks : list Z) (x : Z) :
  x ∈ k :: ks → (x ≤ foldr Z.max k ks)%Z.
Proof.
  induction ks as [|k' ks IH]; simpl.
  - intros ->%list_elem_of_singleton. lia.
  - intros [->|[->|Hin]%elem_of_cons]%elem_of_cons.
    + specialize (IH (list_elem_of_here _ _)). lia.
    + lia.
    + specialize (IH (list_elem_of_further _ _ _ Hin)). lia.
Qed.

(** A new key is above every key of the table. *)
Lemma next_id_above (db : gmap Z Game.t) (key : Z) (g : Game.t) :
  db !! key = Some g → (key < next_id db)%Z.
Proof.
  intros Hg. unfold next_id.
  assert (key ∈ (map_to_list db).*1) as Hin.
  { apply list_elem_of_fmap. exists (key, g). split; [done|].
    by apply elem_of_map_to_list. }
  destruct ((map_to_list db).*1) as [|k ks]; [by apply elem_of_nil in Hin|].
  pose proof (foldr_max_ge k ks key Hin). lia.
Qed.

Lemma start_game_reply (req : GameCreateRequest.t) (now : timestamp)
    (db : gmap Z Game.t) :
  ∃ resp,
    start_game req now db =
      (Returned resp,
       <[next_id db := {| Game.moves := [];
                          Game.board := initial_board;
                          Game.status := "IN_PROGRESS";
                          Game.winner := None;
                          Game.created_at := Some now;
                          Game.finished_at := None |}]> db) ∧
    GameStatusResponse.id resp = next_id db.
Proof.
  unfold start_game.
  change (get_game_status initial_board) with (Ok GameStatus.IN_PROGRESS).
  unfold create_game, get_game. rewrite lookup_insert_eq.
  by eexists.
Qed.

Lemma start_game_valid (req : GameCreateRequest.t) (now : timestamp)
    (db : gmap Z Game.t) :
  (∀ key g, db !! key = Some g → valid_summary g) →
  ∀ key g, (start_game req now db).2 !! key = Some g → valid_summary g.
Proof.
  intros Hvalid key g.
  destruct (start_game_reply req now db) as (resp & -> & _). simpl.
  destruct (decide (key = next_id db)) as [->|Hne].
  - rewrite lookup_insert_eq. intros [= <-].
    split; [by exists GameStatus.IN_PROGRESS|by left].
  - rewrite lookup_insert_ne by done. apply Hvalid.
Qed.

Lemma start_games_valid (calls : list (GameCreateRequest.t * timestamp))
    (db : gmap Z Game.t) :
  (∀ key g, db !! key = Some g → valid_summary g) →
  ∀ key g, start_games calls db !! key = Some g → valid_summary g.
Proof.
  unfold start_games. revert db.
  induction calls as [|[req now] calls IH]; intros db Hvalid; [done|].
  simpl. apply IH. by apply start_game_valid.
Qed.

Lemma five_games_valid (key : Z) (g : Game.t) :
  five_games !! key = Some g → valid_summary g.
Proof. apply start_games_valid. intros ? ?. by rewrite lookup_empty. Qed.

Lemma five_stored_games_page (r1 r2 r3 r4 r5 : GameCreateRequest.t)
    (t1 t2 t3 t4 t5 : timestamp) :
  list_game_history 2 0
    (start_games [(r1, t1); (r2, t2); (r3, t3); (r4, t4); (r5, t5)] ∅)
  = Ok [new_game_summary 5 t5; new_game_summary 4 t4].
Proof. vm_compute. reflexivity. Qed.

(** C9, amended.  Over stored games whose status and winner are of the
    data model, for a limit that is not negative and an offset, both
    within 64 bits, [list_game_history] returns the summaries of the
    stored games in descending order of id, without the first [offset] of
    them (a negative offset skips none) and cut after [limit] items.  A
    game created later has a larger id, so the order is newest first;
    with five games created in an empty database, limit 2 and offset 0
    give the fifth and the fourth. *)
Theorem C9_history_page (db : gmap Z Game.t) (limit offset : Z) :
  (0 ≤ limit < 2 ^ 63)%Z →
  (- 2 ^ 63 ≤ offset < 2 ^ 63)%Z →
  (∀ key g, db !! key = Some g → valid_summary g) →
  (∃ rows page,
     newest_first db rows ∧
     list_game_history limit offset db = Ok page ∧
     page = summary <$> take (Z.to_nat limit) (drop (Z.to_nat offset) rows) ∧
     (Z.of_nat (length page) ≤ limit)%Z) ∧
  (∀ req now key g,
     db !! key = Some g →
     ∃ resp db',
       start_game req now db = (Returned resp, db') ∧
       (key < GameStatusResponse.id resp)%Z) ∧
  (∀ (r1 r2 r3 r4 r5 : GameCreateRequest.t) (t1 t2 t3 t4 t5 : timestamp),
     list_game_history 2 0
       (start_games [(r1, t1); (r2, t2); (r3, t3); (r4, t4); (r5, t5)] ∅)
     = Ok [new_game_summary 5 t5; new_game_summary 4 t4]).
Proof.
  intros Hlimit Hoffset Hvalid. split_and!.
  - exists (order_by_id_desc db). eexists.
    split; [apply order_by_id_desc_newest_first|].
    split; [by apply list_game_history_page|]. split; [done|].
    rewrite length_fmap, length_take. lia.
  - intros req now key g Hg.
    destruct (start_game_reply req now db) as (resp & -> & Hid).
    eexists _, _. split; [reflexivity|]. rewrite Hid. by eapply next_id_above.
  - apply five_stored_games_page.
Qed.

(** The second page of size 2 over the five games: the third and the
    second newest. *)
Lemma C9_history_page_witness :
  (0 ≤ 2 < 2 ^ 63)%Z ∧ (- 2 ^ 63 ≤ 2 < 2 ^ 63)%Z ∧
  (∀ key g, five_games !! key = Some g → valid_summary g) ∧
  ∃ rows page,
    newest_first five_games rows ∧
    list_game_history 2 2 five_games = Ok page ∧
    page = summary <$> take (Z.to_nat 2) (drop (Z.to_nat 2) rows) ∧
    (Z.of_nat (length page) ≤ 2)%Z.
Proof.
  split; [lia|]. split; [lia|]. split; [exact five_games_valid|].
  exact (proj1 (C9_history_page five_games 2 2 ltac:(lia) ltac:(lia) five_games_valid)).
Defined.

(** The claim as stated fails for a negative limit and for a limit
    beyond 64 bits: over five stored games, limit -1 returns all five,
    which is more than the limit, and limit 2^63 returns no list at all,
    the query raising [OverflowError]. *)
Lemma C9_limit_counterexample :
  (∃ page,
     list_game_history (-1) 0 five_games = Ok page ∧
     length page = 5%nat ∧
     ¬ (Z.of_nat (length page) ≤ -1)%Z) ∧
  list_game_history (2 ^ 63) 0 five_games = Raise OverflowError.
Proof.
  split; [|vm_compute; reflexivity].
  eexists. split; [vm_compute; reflexivity|]. split; [reflexivity|].
  simpl. lia.
Qed.

(** ** The table: creating, updating and fetching *)

Lemma next_id_fresh (db : gmap Z Game.t) : db !! next_id db = None.
Proof.
  destruct (db !! next_id db) as [g|] eqn:Hg; [|done].
  pose proof (next_id_above db _ g Hg). lia.
Qed.

Lemma get_game_insert_ne (db : gmap Z Game.t) (key k : Z) (g : Game.t) :
  k ≠ key → get_game k (<[key := g]> db) = get_game k db.
Proof. intros Hne. unfold get_game. by rewrite lookup_insert_ne. Qed.

(** X1. [create_game] stores the new game under a key that no game had:
    [get_game] on that key gives back the moves, board, status and winner
    that were passed, with the clock reading as creation time and no
    finish time, and every other key reads as before. *)
Theorem create_game_round_trip (moves : list MoveDict.t) (board : Board)
    (status : string) (winner : option string) (now : timestamp)
    (db : gmap Z Game.t) :
  ∃ key db',
    create_game moves board status winner now db = (key, db') ∧
    get_game key db = None ∧
    get_game key db' =
      Some {| GameDict.id := key;
              GameDict.moves := moves;
              GameDict.board := board;
              GameDict.status := status;
              GameDict.winner := winner;
              GameDict.created_at := Some now;
              GameDict.finished_at := None |} ∧
    ∀ k, k ≠ key → get_game k db' = get_game k db.
Proof.
  eexists _, _. split; [reflexivity|]. split_and!.
  - unfold get_game. by rewrite next_id_fresh.
  - unfold get_game. by rewrite lookup_insert_eq.
  - intros k Hne. by apply get_game_insert_ne.
Qed.

(** X2. [update_game] on a key within 64 bits that is not stored raises
    [ValueError] and leaves the table as it was.  On a stored key, given
    a finish time that is not empty, it raises [StatementError] (the
    commit fails on the text handed to the [DateTime] column) and leaves
    the table as it was; given none, or the empty text, it replaces
    moves, board, status and winner, keeps both timestamps, and every
    other key reads as before. *)
Theorem update_game_round_trip (game_id : Z) (moves : list MoveDict.t)
    (board : Board) (status : string) (winner : option string)
    (finished_at : option timestamp) (db : gmap Z Game.t) :
  ((- 2 ^ 63 ≤ game_id < 2 ^ 63)%Z →
   get_game game_id db = None →
   update_game game_id moves board status winner finished_at db
   = (Raise ValueError, db)) ∧
  (∀ old,
     get_game game_id db = Some old →
     (∀ t, finished_at = Some t → t ≠ "" →
           update_game game_id moves board status winner finished_at db
           = (Raise StatementError, db)) ∧
     (finished_at = None ∨ finished_at = Some "" →
      ∃ db',
        update_game game_id moves board status winner finished_at db = (Ok tt, db') ∧
        get_game game_id db' =
          Some {| GameDict.id := game_id;
                  GameDict.moves := moves;
                  GameDict.board := board;
                  GameDict.status := status;
                  GameDict.winner := winner;
                  GameDict.created_at := GameDict.created_at old;
                  GameDict.finished_at := GameDict.finished_at old |} ∧
        ∀ k, k ≠ game_id → get_game k db' = get_game k db)).
Proof.
  unfold update_game, get_game.
  destruct (db !! game_id) as [g|] eqn:Hg; split; try done.
  intros old [= <-]. split.
  - intros t -> Hne. simpl. by rewrite (proj2 (String.eqb_neq t "") Hne).
  - intros Hnone.
    assert (truthy_text finished_at = false) as -> by (by destruct Hnone as [->| ->]).
    eexists. split; [reflexivity|]. split.
    + by rewrite lookup_insert_eq.
    + intros k Hne. by rewrite lookup_insert_ne.
Qed.

(** The game of four moves stored under key 1: the update that would
    record X's winning fifth move with a finish time raises, and the
    table stays as it was. *)
Lemma update_game_round_trip_witness :
  let db : gmap Z Game.t := {[ 1%Z := four_moves_game ]} in
  let moves := Game.moves four_moves_game ++
                 [ {| MoveDict.player := "X"; MoveDict.row := 0; MoveDict.col := 2 |} ] in
  let board := [[mark Player.X; mark Player.X; mark Player.X];
                [mark Player.O; mark Player.O; None];
                [None; None; None]] in
  get_game 1 db = Some (GameDict.of_row 1 four_moves_game) ∧
  "2024-01-01T10:05:00" ≠ "" ∧
  update_game 1 moves board "WINNER_X" (Some "X") (Some "2024-01-01T10:05:00") db
  = (Raise StatementError, db).
Proof.
  cbv zeta. split; [reflexivity|]. split; [done|].
  pose proof (update_game_round_trip 1
                (Game.moves four_moves_game ++
                   [ {| MoveDict.player := "X"; MoveDict.row := 0; MoveDict.col := 2 |} ])
                [[mark Player.X; mark Player.X; mark Player.X];
                 [mark Player.O; mark Player.O; None];
                 [None; None; None]]
                "WINNER_X" (Some "X") (Some "2024-01-01T10:05:00")) as Hupdate.
  eapply (Hupdate _); [reflexivity|reflexivity|done].
Defined.

(** X3. A call of [make_move] or of [start_game] changes at most one
    row: [make_move] leaves every game other than the one it names as it
    was, whatever it answers, and [start_game] leaves every stored game
    as it was. *)
Theorem other_games_untouched (db : gmap Z Game.t) (now : timestamp) :
  (∀ game_id req key,
     key ≠ game_id → (make_move game_id req now db).2 !! key = db !! key) ∧
  (∀ req key g,
     db !! key = Some g → (start_game req now db).2 !! key = Some g).
Proof.
  split.
  - intros game_id req key Hne.
    destruct (make_move_table game_id req now db)
      as [->|(g0 & g' & resp & _ & _ & ->)]; [done|].
    simpl. by rewrite lookup_insert_ne.
  - intros req key g Hg.
    destruct (start_game_reply req now db) as (resp & -> & _). simpl.
    rewrite lookup_insert_ne; [done|].
    intros <-. by rewrite next_id_fresh in Hg.
Qed.


(** ** Turns, marks and the length of a game *)

Lemma sum_from (xs : list Z) (a : Z) :
  fold_left Z.add xs a = (a + sum xs)%Z.
Proof.
  unfold sum. revert a.
  induction xs as [|x xs IH]; intros a; simpl; [lia|].
  rewrite (IH (a + x)%Z), (IH (0 + x)%Z). lia.
Qed.

Lemma sum_cons (x : Z) (xs : list Z) : sum (x :: xs) = (x + sum xs)%Z.
Proof. unfold sum at 1. simpl. apply sum_from. Qed.

(** The two counts of [get_next_player] over a list of cells: no cell
    counts twice, and a cell that counts is not empty. *)
Lemma counts_bound (l : list cell) :
  (0 ≤ sum (map (fun c => int_of_bool (cell_is Player.X c)) l)
       + sum (map (fun c => int_of_bool (cell_is Player.O c)) l)
     ≤ Z.of_nat (length l))%Z.
Proof.
  induction l as [|c l IH]; simpl; [by vm_compute|].
  rewrite !sum_cons.
  assert (0 ≤ int_of_bool (cell_is Player.X c) + int_of_bool (cell_is Player.O c) ≤ 1)%Z;
    [|lia].
  destruct c as [s|]; simpl; [|lia].
  destruct (String.eqb_spec s "X") as [->|]; simpl; [lia|].
  destruct (String.eqb s "O"); simpl; lia.
Qed.

Lemma counts_full (l : list cell) :
  (sum (map (fun c => int_of_bool (cell_is Player.X c)) l)
   + sum (map (fun c => int_of_bool (cell_is Player.O c)) l)
   = Z.of_nat (length l))%Z →
  existsb is_none l = false.
Proof.
  induction l as [|c l IH]; simpl; [done|].
  rewrite !sum_cons. intros Hsum. pose proof (counts_bound l) as Hl.
  destruct c as [s|]; simpl in Hsum |- *; [apply IH|lia].
  destruct (String.eqb_spec s "X") as [->|]; simpl in Hsum; [lia|].
  destruct (String.eqb s "O"); simpl in Hsum; lia.
Qed.

Lemma grid_cells_length (b : Board) : is_grid b → length (cells b) = 9%nat.
Proof. intros Hb. by destruct (is_grid_inv _ Hb) as (?&?&?&?&?&?&?&?&?&->). Qed.

(** The invariant of the boards that play produces, as a lemma the
    properties below share. *)
Lemma reachable_counts (b : Board) :
  reachable b →
  ((x_count b - o_count b = 0)%Z ∨ (x_count b - o_count b = 1)%Z) ∧ is_grid b.
Proof.
  induction 1 as [|b row col player b' Hreach [Hdiff Hb] Hplay].
  - destruct initial_board_counts as (Hb & -> & ->). by split; [left|].
  - destruct (play_move_success _ _ _ _ _ Hb Hplay)
      as (Hrow & Hcol & Hcell & Hturn & ->).
    destruct (place_counts b row col player Hb Hrow Hcol Hcell) as (Hb' & Hx & Ho).
    split; [|done]. rewrite Hx, Ho.
    unfold get_next_player in Hturn.
    destruct (Z.gtb_spec (x_count b) (o_count b)); subst player; simpl; lia.
Qed.

(** X5. On a board that play has produced, a successful move is made by
    the player [get_next_player] names, the next player after it is the
    other one, and whatever cell the same player tries next, the move is
    rejected and the board is returned as it is. *)
Theorem turns_alternate (b b' : Board) (row col : Z) (player : Player.t) :
  reachable b → play_move b row col player = Ok (b', None) →
  player = get_next_player b ∧
  get_next_player b' =
    match player with Player.X => Player.O | Player.O => Player.X end ∧
  ∀ r c, ∃ e, play_move b' r c player = Ok (b', Some e).
Proof.
  intros [Hdiff Hb]%reachable_counts Hplay.
  destruct (play_move_success _ _ _ _ _ Hb Hplay)
    as (Hrow & Hcol & Hcell & Hturn & ->).
  destruct (place_counts b row col player Hb Hrow Hcol Hcell) as (Hb' & Hx & Ho).
  assert (get_next_player (place b row col player) =
            match player with Player.X => Player.O | Player.O => Player.X end)
    as Hnext.
  { unfold get_next_player in *. rewrite Hx, Ho.
    destruct (Z.gtb_spec (x_count b) (o_count b)); subst player; simpl.
    - destruct (Z.gtb_spec (x_count b + 0) (o_count b + 1)); [lia|done].
    - destruct (Z.gtb_spec (x_count b + 1) (o_count b + 0)); [done|lia]. }
  split; [done|]. split; [done|].
  intros r c. rewrite play_move_outcome by done. unfold move_outcome.
  destruct (decide _); [|by eexists].
  destruct (cell_at _ r c) as [[s|]|]; try by eexists.
  - rewrite Hnext. destruct (decide _) as [Heq|]; [by destruct player|by eexists].
  - rewrite Hnext. destruct (decide _) as [Heq|]; [by destruct player|by eexists].
Qed.

(** X on (0,0) from the empty board; O is next and X cannot move again. *)
Lemma turns_alternate_witness :
  let b' := [[mark Player.X; None; None]; [None; None; None]; [None; None; None]] in
  reachable initial_board ∧
  play_move initial_board 0 0 Player.X = Ok (b', None) ∧
  get_next_player b' = Player.O ∧
  ∀ r c, ∃ e, play_move b' r c Player.X = Ok (b', Some e).
Proof.
  cbv zeta. split; [apply reachable_initial|]. split; [reflexivity|].
  exact (proj2 (turns_alternate initial_board _ 0 0 Player.X
                  reachable_initial eq_refl)).
Defined.

Lemma play_sequence_counts (b0 b : Board) (ms : list (Player.t * Z * Z)) :
  is_grid b0 → play_sequence b0 ms = Some b →
  is_grid b ∧
  (x_count b + o_count b = x_count b0 + o_count b0 + Z.of_nat (length ms))%Z.
Proof.
  revert b0. induction ms as [|[[p row] col] ms IH]; intros b0 Hb0; simpl.
  { intros [= <-]. split; [done|lia]. }
  destruct (play_move b0 row col p) as [[b1 [e|]]|e] eqn:Hplay; try done.
  destruct (play_move_success _ _ _ _ _ Hb0 Hplay)
    as (Hrow & Hcol & Hcell & Hturn & ->).
  destruct (place_counts b0 row col p Hb0 Hrow Hcol Hcell) as (Hb1 & Hx & Ho).
  intros Hrest. destruct (IH _ Hb1 Hrest) as [Hb Hsum]. split; [done|].
  rewrite Hsum, Hx, Ho. destruct p; simpl; lia.
Qed.

(** X6. When a sequence of moves from the empty board succeeds move by
    move, the board holds as many marks as moves were made, and no such
    sequence has more than nine moves. *)
Theorem game_length (ms : list (Player.t * Z * Z)) (b : Board) :
  play_sequence initial_board ms = Some b →
  (Z.of_nat (length ms) = x_count b + o_count b)%Z ∧ (length ms ≤ 9)%nat.
Proof.
  intros Hplay.
  destruct (play_sequence_counts initial_board b ms (is_grid_9 _ _ _ _ _ _ _ _ _) Hplay)
    as [Hb Hsum].
  destruct initial_board_counts as (_ & Hx0 & Ho0). rewrite Hx0, Ho0 in Hsum.
  split; [lia|].
  pose proof (counts_bound (cells b)) as Hbound.
  rewrite (grid_cells_length b Hb) in Hbound.
  unfold x_count, o_count in Hsum. lia.
Qed.

Lemma game_length_witness :
  let ms := [(Player.X, 1, 1); (Player.O, 0, 0); (Player.X, 2, 2)]%Z in
  let b := [[mark Player.O; None; None];
            [None; mark Player.X; None];
            [None; None; mark Player.X]] in
  play_sequence initial_board ms = Some b ∧
  (Z.of_nat (length ms) = x_count b + o_count b)%Z ∧ (length ms ≤ 9)%nat.
Proof.
  cbv zeta. split; [reflexivity|].
  exact (game_length [(Player.X, 1, 1); (Player.O, 0, 0); (Player.X, 2, 2)]%Z
           _ eq_refl).
Defined.

Lemma get_game_status_grid (b : Board) :
  is_grid b →
  get_game_status b =
    Ok match first_line_mark b scan_order with
       | Some Player.X => GameStatus.WINNER_X
       | Some Player.O => GameStatus.WINNER_O
       | None => if existsb is_none (cells b) then GameStatus.IN_PROGRESS
                 else GameStatus.DRAW
       end.
Proof.
  intros Hb. unfold get_game_status, is_draw.
  rewrite (check_winner_first_line_mark b Hb).
  generalize (first_line_mark b scan_order). intros w. cbn.
  destruct w as [[|]|]; [done..|].
  by destruct (existsb is_none (cells b)).
Qed.

(** X7. The ninth accepted move ends the game: the board that nine
    successful moves from the empty board leave has a terminal status,
    and any move on it is rejected. *)
Theorem ninth_move_ends_the_game (ms : list (Player.t * Z * Z)) (b : Board) :
  play_sequence initial_board ms = Some b → length ms = 9%nat →
  (∃ s, get_game_status b = Ok s ∧ terminal s = true) ∧
  ∀ row col player, ∃ e, play_move b row col player = Ok (b, Some e).
Proof.
  intros Hplay Hlen.
  destruct (play_sequence_counts initial_board b ms (is_grid_9 _ _ _ _ _ _ _ _ _) Hplay)
    as [Hb Hsum].
  destruct initial_board_counts as (_ & Hx0 & Ho0). rewrite Hx0, Ho0 in Hsum.
  assert (existsb is_none (cells b) = false) as Hfull.
  { apply counts_full. rewrite (grid_cells_length b Hb).
    unfold x_count, o_count in Hsum. lia. }
  split.
  - rewrite (get_game_status_grid b Hb), Hfull. eexists. split; [reflexivity|].
    by destruct (first_line_mark b scan_order) as [[|]|].
  - intros row col player. rewrite play_move_outcome by done. unfold move_outcome.
    destruct (decide _) as [[Hrow Hcol]|]; [|by eexists].
    destruct (grid_cell b row col Hb Hrow Hcol) as (r & c & Hr & _ & Hc).
    rewrite (cell_at_lookup b row col r), Hc
      by (done || unfold in_range in *; lia).
    destruct c as [s|]; [by eexists|].
    exfalso. apply no_empty_cell in Hfull.
    pose proof (Forall_lookup_1 _ _ _ _ Hfull Hr) as Hrow'.
    by pose proof (Forall_lookup_1 _ _ _ _ Hrow' Hc).
Qed.

(** The drawn game of nine moves. *)
Lemma ninth_move_ends_the_game_witness :
  let ms := [(Player.X, 0, 0); (Player.O, 0, 1); (Player.X, 0, 2);
             (Player.O, 1, 1); (Player.X, 1, 0); (Player.O, 1, 2);
             (Player.X, 2, 1); (Player.O, 2, 0); (Player.X, 2, 2)]%Z in
  let b := [[mark Player.X; mark Player.O; mark Player.X];
            [mark Player.X; mark Player.O; mark Player.O];
            [mark Player.O; mark Player.X; mark Player.X]] in
  play_sequence initial_board ms = Some b ∧ length ms = 9%nat ∧
  (∃ s, get_game_status b = Ok s ∧ terminal s = true) ∧
  ∀ row col player, ∃ e, play_move b row col player = Ok (b, Some e).
Proof.
  cbv zeta. split; [reflexivity|]. split; [reflexivity|].
  exact (ninth_move_ends_the_game
           [(Player.X, 0, 0); (Player.O, 0, 1); (Player.X, 0, 2);
            (Player.O, 1, 1); (Player.X, 1, 0); (Player.O, 1, 2);
            (Player.X, 2, 1); (Player.O, 2, 0); (Player.X, 2, 2)]%Z
           _ eq_refl eq_refl).
Defined.

(** ** What a move keeps and what it can win *)

Lemma place_keeps_marks (b : Board) (row col : Z) (p : Player.t) (i j : Z) (s : string) :
  is_grid b → in_range row → in_range col → cell_at b row col = Some None →
  cell_at b i j = Some (Some s) →
  cell_at (place b row col p) i j = Some (Some s).
Proof.
  intros Hb Hrow Hcol Hcell Hij. rewrite place_cell_at by done.
  destruct (decide _) as [[-> ->]|]; [congruence|done].
Qed.

(** X8. Successful moves never erase or change a mark: a cell that holds
    a string before a sequence of successful moves holds the same string
    after it, and a line that a player has filled stays filled by that
    player. *)
Theorem marks_persist (b b' : Board) (ms : list (Player.t * Z * Z)) :
  is_grid b → play_sequence b ms = Some b' →
  (∀ i j s, cell_at b i j = Some (Some s) → cell_at b' i j = Some (Some s)) ∧
  (∀ line p, complete b line p → complete b' line p).
Proof.
  intros Hb Hplay.
  assert (∀ i j s, cell_at b i j = Some (Some s) → cell_at b' i j = Some (Some s))
    as Hkeep.
  { revert b Hb Hplay. induction ms as [|[[p row] col] ms IH]; intros b Hb; simpl.
    { by intros [= <-]. }
    destruct (play_move b row col p) as [[b1 [e|]]|e] eqn:Hmove; try done.
    destruct (play_move_success _ _ _ _ _ Hb Hmove)
      as (Hrow & Hcol & Hcell & _ & ->).
    intros Hrest i j s Hij.
    apply (IH (place b row col p)); [|done|].
    - by apply place_counts.
    - by apply place_keeps_marks. }
  split; [exact Hkeep|].
  intros line p Hline ij Hin. apply Hkeep. by apply Hline.
Qed.

(** After X in the centre, O in a corner leaves the X where it was. *)
Lemma marks_persist_witness :
  let b := [[None; None; None]; [None; mark Player.X; None]; [None; None; None]] in
  let b' := [[mark Player.O; None; None]; [None; mark Player.X; None];
             [None; None; None]] in
  is_grid b ∧ play_sequence b [(Player.O, 0, 0)]%Z = Some b' ∧
  (∀ i j s, cell_at b i j = Some (Some s) → cell_at b' i j = Some (Some s)) ∧
  (∀ line p, complete b line p → complete b' line p).
Proof.
  cbv zeta. split; [apply is_grid_9|]. split; [reflexivity|].
  exact (marks_persist _ _ [(Player.O, 0, 0)]%Z
           (is_grid_9 None None None None (mark Player.X) None None None None)
           eq_refl).
Defined.

Lemma no_winner_no_line (b : Board) (line : list (Z * Z)) (q : Player.t) :
  is_grid b → check_winner b = Ok None → line ∈ scan_order →
  ¬ complete b line q.
Proof.
  intros Hb Hnone Hin Hq.
  rewrite (check_winner_first_line_mark b Hb) in Hnone.
  injection Hnone as Hnone.
  pose proof (proj1 (first_line_mark_none b scan_order) Hnone line Hin) as Hline.
  pose proof Hin as [k Hk]%list_elem_of_lookup.
  apply (line_mark_complete b line q) in Hq; [congruence|].
  by eapply scan_order_nonempty.
Qed.

Lemma move_wins_for_mover (b : Board) (row col : Z) (p q : Player.t)
    (line : list (Z * Z)) :
  is_grid b → check_winner b = Ok None →
  in_range row → in_range col → cell_at b row col = Some None →
  line ∈ scan_order → complete (place b row col p) line q →
  q = p ∧ (row, col) ∈ line.
Proof.
  intros Hb Hnone Hrow Hcol Hcell Hin Hq.
  destruct (decide ((row, col) ∈ line)) as [Hthrough|Hnot].
  - split; [|done]. specialize (Hq _ Hthrough). simpl in Hq.
    rewrite place_cell_at, decide_True in Hq by done.
    injection Hq as Hq. by destruct p, q.
  - exfalso. apply (no_winner_no_line b line q Hb Hnone Hin).
    intros [i j] Hij. specialize (Hq _ Hij). simpl in *.
    rewrite place_cell_at in Hq by done.
    destruct (decide _) as [[-> ->]|]; [done|exact Hq].
Qed.

(** X9. A move on a board without a winner can only win for the player
    who makes it: every line that is filled after a successful move is
    filled by the mover and runs through the cell just played. *)
Theorem only_the_mover_wins (b b' : Board) (row col : Z) (player : Player.t) :
  is_grid b → check_winner b = Ok None →
  play_move b row col player = Ok (b', None) →
  ∀ line q, line ∈ scan_order → complete b' line q →
            q = player ∧ (row, col) ∈ line.
Proof.
  intros Hb Hnone Hplay line q Hin Hq.
  destruct (play_move_success _ _ _ _ _ Hb Hplay)
    as (Hrow & Hcol & Hcell & _ & ->).
  by eapply move_wins_for_mover.
Qed.

(** X completes row 0 with the move (0,2). *)
Lemma only_the_mover_wins_witness :
  let b := [[mark Player.X; mark Player.X; None];
            [mark Player.O; mark Player.O; None];
            [None; None; None]] in
  let b' := [[mark Player.X; mark Player.X; mark Player.X];
             [mark Player.O; mark Player.O; None];
             [None; None; None]] in
  is_grid b ∧ check_winner b = Ok None ∧
  play_move b 0 2 Player.X = Ok (b', None) ∧
  ∀ line q, line ∈ scan_order → complete b' line q →
            q = Player.X ∧ (0, 2)%Z ∈ line.
Proof.
  cbv zeta. split; [apply is_grid_9|]. split; [reflexivity|]. split; [reflexivity|].
  exact (only_the_mover_wins _ _ 0 2 Player.X
           (is_grid_9 (mark Player.X) (mark Player.X) None
                      (mark Player.O) (mark Player.O) None None None None)
           eq_refl eq_refl).
Defined.

(** ** The games the service stores *)

Lemma finished_value (s : GameStatus.t) : finished (GameStatus.value s) = terminal s.
Proof. by destruct s. Qed.

(** The two ways a call of [make_move] ends: the table is as it was, or
    the move was accepted on an unfinished game and its row rewritten. *)
Lemma make_move_cases (game_id : Z) (req : GameMoveRequest.t) (now : timestamp)
    (db : gmap Z Game.t) :
  (make_move game_id req now db).2 = db ∨
  ∃ g b' s,
    db !! game_id = Some g ∧ finished (Game.status g) = false ∧
    play_move (Game.board g) (GameMoveRequest.row req) (GameMoveRequest.col req)
              (GameMoveRequest.player req) = Ok (b', None) ∧
    get_game_status b' = Ok s ∧
    truthy_text (if terminal s then Some now else None) = false ∧
    make_move game_id req now db =
      (Returned (GameStatusResponse.of_dict
                   (GameDict.of_row game_id (moved g req b' s))),
       <[game_id := moved g req b' s]> db).
Proof.
  unfold make_move, get_game.
  destruct (db !! game_id) as [g|] eqn:Hg; [|by left]. simpl.
  destruct (finished (Game.status g)) eqn:Hfin; [by left|].
  destruct (play_move _ _ _ _) as [[b' [err|]]|e] eqn:Hplay; [by left| |by left].
  destruct (get_game_status b') as [s|e] eqn:Hs; [|by left].
  unfold update_game. rewrite Hg.
  destruct (truthy_text _) eqn:Htime; [by left|]. rewrite lookup_insert_eq.
  right. exists g, b', s. by split_and!.
Qed.

Lemma play_sequence_app (b : Board) (ms1 ms2 : list (Player.t * Z * Z)) :
  play_sequence b (ms1 ++ ms2) =
    match play_sequence b ms1 with
    | Some b1 => play_sequence b1 ms2
    | None => None
    end.
Proof.
  revert b. induction ms1 as [|[[p row] col] ms1 IH]; intros b; simpl; [done|].
  destruct (play_move b row col p) as [[b1 [e|]]|e]; try done.
Qed.

Lemma consistent_new_game (now : timestamp) :
  consistent {| Game.moves := [];
                Game.board := initial_board;
                Game.status := "IN_PROGRESS";
                Game.winner := None;
                Game.created_at := Some now;
                Game.finished_at := None |} [].
Proof.
  split_and!; try done.
  - simpl. intros n Hn. lia.
  - by exists GameStatus.IN_PROGRESS.
Qed.

Lemma consistent_moved (g : Game.t) (ms : list (Player.t * Z * Z))
    (req : GameMoveRequest.t) (b' : Board) (s : GameStatus.t) :
  consistent g ms → finished (Game.status g) = false →
  play_move (Game.board g) (GameMoveRequest.row req) (GameMoveRequest.col req)
            (GameMoveRequest.player req) = Ok (b', None) →
  get_game_status b' = Ok s →
  consistent (moved g req b' s)
    (ms ++ [(GameMoveRequest.player req, GameMoveRequest.row req,
             GameMoveRequest.col req)]).
Proof.
  intros (Hplay & Hopen & Hmoves & s0 & Hs0 & Hstatus & Hwinner & Htime)
         Hfin Hmove Hs.
  rewrite Hstatus, finished_value in Hfin.
  assert (s0 = GameStatus.IN_PROGRESS) as -> by (by destruct s0).
  split_and!.
  - rewrite play_sequence_app, Hplay. simpl. by rewrite Hmove.
  - intros n Hn. rewrite length_app in Hn. simpl in Hn.
    destruct (decide (n < length ms)%nat) as [Hlt|Hge].
    + rewrite take_app_le by lia. by apply Hopen.
    + assert (n = length ms) as -> by lia.
      rewrite take_app_length. by exists (Game.board g).
  - simpl. by rewrite Hmoves, fmap_app.
  - exists s. split_and!; try done. simpl. intros _. by apply Htime.
Qed.

(** Every stored game of a served table is consistent with some sequence
    of moves. *)
Lemma served_consistent (db : gmap Z Game.t) (key : Z) (g : Game.t) :
  served db → db !! key = Some g → ∃ ms, consistent g ms.
Proof.
  intros Hserved. revert key g.
  induction Hserved as [|req now db _ IH|game_id req now db _ IH]; intros key g.
  - by rewrite lookup_empty.
  - destruct (start_game_reply req now db) as (resp & -> & _). simpl.
    destruct (decide (next_id db = key)) as [<-|Hne].
    + rewrite lookup_insert_eq. intros [= <-].
      exists []. apply consistent_new_game.
    + rewrite lookup_insert_ne by done. apply IH.
  - destruct (make_move_cases game_id req now db)
      as [->|(g0 & b' & s & Hg0 & Hfin & Hmove & Hs & _ & ->)]; [apply IH|].
    simpl. destruct (decide (game_id = key)) as [<-|Hne].
    + rewrite lookup_insert_eq. intros [= <-].
      destruct (IH _ _ Hg0) as [ms Hms]. eexists.
      by apply consistent_moved.
    + rewrite lookup_insert_ne by done. apply IH.
Qed.

Lemma play_sequence_reachable (b b' : Board) (ms : list (Player.t * Z * Z)) :
  reachable b → play_sequence b ms = Some b' → reachable b'.
Proof.
  revert b. induction ms as [|[[p row] col] ms IH]; intros b Hb; simpl.
  { by intros [= <-]. }
  destruct (play_move b row col p) as [[b1 [e|]]|e] eqn:Hmove; try done.
  apply IH. by eapply reachable_move.
Qed.

(** X10. In every table that [start_game] and [make_move] calls produce
    from an empty database, the stored board of a game is the board that
    replaying its stored moves from the empty board gives; every one of
    those moves was accepted while the game was still in progress; and
    the stored status and winner are the ones [get_game_status] gives
    for the stored board, with no finish time while in progress. *)
Theorem stored_games_are_consistent (db : gmap Z Game.t) (key : Z) (g : Game.t) :
  served db → db !! key = Some g →
  ∃ ms s,
    play_sequence initial_board ms = Some (Game.board g) ∧
    Game.moves g = dict_of_move <$> ms ∧
    (∀ n, (n < length ms)%nat →
          ∃ b0, play_sequence initial_board (take n ms) = Some b0 ∧
                get_game_status b0 = Ok GameStatus.IN_PROGRESS) ∧
    reachable (Game.board g) ∧
    get_game_status (Game.board g) = Ok s ∧
    Game.status g = GameStatus.value s ∧
    Game.winner g = winner_of s ∧
    (terminal s = false → Game.finished_at g = None).
Proof.
  intros Hserved Hg.
  destruct (served_consistent db key g Hserved Hg)
    as (ms & Hplay & Hopen & Hmoves & s & Hs & Hstatus & Hwinner & Htime).
  exists ms, s. split_and!; try done.
  eapply play_sequence_reachable; [apply reachable_initial|exact Hplay].
Qed.

(** A game in which X has played the centre. *)
Lemma stored_games_are_consistent_witness :
  let db := (make_move 1 {| GameMoveRequest.player := Player.X;
                            GameMoveRequest.row := 1; GameMoveRequest.col := 1 |}
                       "2024-01-01T10:01:00"
               (start_game {| GameCreateRequest.first_player := None |}
                           "2024-01-01T10:00:00" ∅).2).2 in
  let g := {| Game.moves := [ {| MoveDict.player := "X";
                                 MoveDict.row := 1; MoveDict.col := 1 |} ];
              Game.board := [[None; None; None];
                             [None; mark Player.X; None];
                             [None; None; None]];
              Game.status := "IN_PROGRESS";
              Game.winner := None;
              Game.created_at := Some "2024-01-01T10:00:00";
              Game.finished_at := None |} in
  served db ∧ db !! 1%Z = Some g ∧
  ∃ ms s,
    play_sequence initial_board ms = Some (Game.board g) ∧
    Game.moves g = dict_of_move <$> ms ∧
    (∀ n, (n < length ms)%nat →
          ∃ b0, play_sequence initial_board (take n ms) = Some b0 ∧
                get_game_status b0 = Ok GameStatus.IN_PROGRESS) ∧
    reachable (Game.board g) ∧
    get_game_status (Game.board g) = Ok s ∧
    Game.status g = GameStatus.value s ∧
    Game.winner g = winner_of s ∧
    (terminal s = false → Game.finished_at g = None).
Proof.
  cbv zeta.
  assert (served (make_move 1 {| GameMoveRequest.player := Player.X;
                                 GameMoveRequest.row := 1; GameMoveRequest.col := 1 |}
                            "2024-01-01T10:01:00"
                    (start_game {| GameCreateRequest.first_player := None |}
                                "2024-01-01T10:00:00" ∅).2).2) as Hserved.
  { apply served_move, served_start, served_empty. }
  split; [exact Hserved|]. split; [vm_compute; reflexivity|].
  refine (stored_games_are_consistent _ 1 _ Hserved _).
  vm_compute. reflexivity.
Defined.

Lemma status_in_progress_no_winner (b : Board) :
  is_grid b → get_game_status b = Ok GameStatus.IN_PROGRESS →
  check_winner b = Ok None.
Proof.
  intros Hb. rewrite (get_game_status_grid b Hb), (check_winner_first_line_mark b Hb).
  by destruct (first_line_mark b scan_order) as [[|]|].
Qed.

Lemma produced_run_moves (calls : list (Z * GameMoveRequest.t * timestamp))
    (db : gmap Z Game.t) :
  Forall (fun call => call.2 ≠ "") calls →
  produced db → produced (run_moves calls db).
Proof.
  unfold run_moves. intros Hcalls. revert db.
  induction Hcalls as [|[[id req] now] calls Hnow _ IH]; intros db Hdb; [done|].
  simpl. apply IH. by apply produced_move.
Qed.

(** With a clock reading that is not empty, the only moves [make_move]
    stores are those that leave the game in progress. *)
Lemma produced_in_progress (db : gmap Z Game.t) (key : Z) (g : Game.t) :
  produced db → db !! key = Some g →
  Game.status g = "IN_PROGRESS" ∧ ∃ ms, consistent g ms.
Proof.
  intros Hproduced. revert key g.
  induction Hproduced as [|req now db _ IH|game_id req now db _ IH Hnow];
    intros key g.
  - by rewrite lookup_empty.
  - destruct (start_game_reply req now db) as (resp & -> & _). simpl.
    destruct (decide (next_id db = key)) as [<-|Hne].
    + rewrite lookup_insert_eq. intros [= <-].
      split; [done|]. exists []. apply consistent_new_game.
    + rewrite lookup_insert_ne by done. apply IH.
  - destruct (make_move_cases game_id req now db)
      as [->|(g0 & b' & s & Hg0 & Hfin & Hmove & Hs & Htime & ->)]; [apply IH|].
    simpl. destruct (decide (game_id = key)) as [<-|Hne].
    + rewrite lookup_insert_eq. intros [= <-].
      destruct (IH _ _ Hg0) as [_ [ms Hms]]. split.
      * destruct s; simpl in Htime; try done;
          by rewrite (proj2 (String.eqb_neq now "") Hnow) in Htime.
      * eexists. by apply consistent_moved.
    + rewrite lookup_insert_ne by done. apply IH.
Qed.

(** X11. In every table the service produces, every stored game is in
    progress: its status is IN_PROGRESS, it has no winner and no finish
    time, [get_game_status] gives IN_PROGRESS for its board, and no line
    of the board is filled by a player.  A move that would end a game is
    not stored, since the update that carries the finish time fails. *)
Theorem stored_games_stay_in_progress (db : gmap Z Game.t) (key : Z) (g : Game.t) :
  produced db → db !! key = Some g →
  Game.status g = "IN_PROGRESS" ∧
  Game.winner g = None ∧
  Game.finished_at g = None ∧
  get_game_status (Game.board g) = Ok GameStatus.IN_PROGRESS ∧
  (∀ line p, line ∈ scan_order → ¬ complete (Game.board g) line p).
Proof.
  intros Hproduced Hg.
  destruct (produced_in_progress db key g Hproduced Hg)
    as (Hopen & ms & Hplay & _ & _ & s & Hs & Hstatus & Hwinner & Htime).
  assert (s = GameStatus.IN_PROGRESS) as ->.
  { rewrite Hopen in Hstatus. by destruct s. }
  split_and!; try done.
  - by apply Htime.
  - intros line p Hin.
    destruct (play_sequence_counts initial_board _ ms (is_grid_9 _ _ _ _ _ _ _ _ _) Hplay)
      as [Hgrid _].
    apply no_winner_no_line; [done| |done].
    by apply status_in_progress_no_winner.
Qed.

(** A game in which X plays the winning fifth move on row 0: the call
    raises, and the stored game still has its four moves. *)
Lemma stored_games_stay_in_progress_witness :
  let move p r c := {| GameMoveRequest.player := p;
                       GameMoveRequest.row := r; GameMoveRequest.col := c |} in
  let db4 := run_moves
               [ (1, move Player.X 0 0, "2024-01-01T10:01:00");
                 (1, move Player.O 1 0, "2024-01-01T10:02:00");
                 (1, move Player.X 0 1, "2024-01-01T10:03:00");
                 (1, move Player.O 1 1, "2024-01-01T10:04:00") ]%Z
               (start_game {| GameCreateRequest.first_player := None |}
                           "2024-01-01 10:00:00" ∅).2 in
  let db := (make_move 1 (move Player.X 0 2)%Z "2024-01-01T10:05:00" db4).2 in
  produced db ∧
  (make_move 1 (move Player.X 0 2)%Z "2024-01-01T10:05:00" db4).1
  = Uncaught StatementError ∧
  db !! 1%Z = Some four_moves_game ∧
  Game.status four_moves_game = "IN_PROGRESS" ∧
  Game.winner four_moves_game = None ∧
  Game.finished_at four_moves_game = None ∧
  get_game_status (Game.board four_moves_game) = Ok GameStatus.IN_PROGRESS ∧
  (∀ line p, line ∈ scan_order → ¬ complete (Game.board four_moves_game) line p).
Proof.
  cbv zeta.
  match goal with |- produced ?t ∧ _ => assert (produced t) as Hproduced end.
  { apply produced_move; [|done]. apply produced_run_moves.
    - repeat (apply Forall_cons_2 || apply Forall_nil_2); done.
    - apply produced_start, produced_empty. }
  split; [exact Hproduced|]. split; [vm_compute; reflexivity|].
  split; [vm_compute; reflexivity|].
  refine (stored_games_stay_in_progress _ 1 _ Hproduced _).
  vm_compute. reflexivity.
Defined.

(** ** What [make_move] answers on a stored game *)

Lemma place_marks_only (b : Board) (row col : Z) (p : Player.t) :
  marks_only b → marks_only (place b row col p).
Proof.
  unfold marks_only, place. intros Hb.
  destruct (b !! Z.to_nat row) as [r|] eqn:Hr; [|done].
  apply Forall_insert; [done|].
  apply Forall_insert; [by eapply Forall_lookup_1|].
  right. by exists p.
Qed.

(** The row an accepted move writes is of the declared types when the
    row it replaces was. *)
Lemma moved_fits_schema (g : Game.t) (req : GameMoveRequest.t) (s : GameStatus.t) :
  fits_schema g →
  in_range (GameMoveRequest.row req) → in_range (GameMoveRequest.col req) →
  fits_schema (moved g req (place (Game.board g) (GameMoveRequest.row req)
                                  (GameMoveRequest.col req)
                                  (GameMoveRequest.player req)) s).
Proof.
  intros (Hboard & Hmoves & _) Hrow Hcol. split_and!; simpl.
  - by apply place_marks_only.
  - apply Forall_app. split; [done|].
    apply Forall_cons_2; [|apply Forall_nil_2].
    split; [by eexists|done].
  - split; [by eexists|].
    destruct s; simpl; [by left|by left|right..];
      [by exists Player.X|by exists Player.O].
Qed.

Lemma served_fits_schema (db : gmap Z Game.t) (key : Z) (g : Game.t) :
  served db → db !! key = Some g → fits_schema g.
Proof.
  intros Hserved. revert key g.
  induction Hserved as [|req now db _ IH|game_id req now db Hserved IH]; intros key g.
  - by rewrite lookup_empty.
  - destruct (start_game_reply req now db) as (resp & -> & _). simpl.
    destruct (decide (next_id db = key)) as [<-|Hne].
    + rewrite lookup_insert_eq. intros [= <-]. split_and!; simpl.
      * unfold marks_only, initial_board.
        repeat (apply Forall_cons_2 || apply Forall_nil_2); by left.
      * apply Forall_nil_2.
      * split; [by exists GameStatus.IN_PROGRESS|by left].
    + rewrite lookup_insert_ne by done. apply IH.
  - destruct (make_move_cases game_id req now db)
      as [->|(g0 & b' & s & Hg0 & _ & Hmove & _ & _ & ->)]; [apply IH|].
    simpl. destruct (decide (game_id = key)) as [<-|Hne].
    + rewrite lookup_insert_eq. intros [= <-].
      destruct (served_consistent db game_id g0 Hserved Hg0) as (ms & Hplay & _).
      destruct (play_sequence_counts initial_board _ ms (is_grid_9 _ _ _ _ _ _ _ _ _)
                  Hplay) as [Hgrid _].
      destruct (play_move_success _ _ _ _ _ Hgrid Hmove) as (Hrow & Hcol & _ & _ & ->).
      apply moved_fits_schema; [by eapply IH|done..].
    + rewrite lookup_insert_ne by done. apply IH.
Qed.

(** X22. Every game of a table the service produces is of the types the
    response schemas declare: its board holds only empty cells and marks
    of players, every stored move names a player and a row and a column
    within 0..2, the status is a value of [GameStatus] and the winner is
    absent or a value of [Player]; so [GameHistoryItem] accepts it. *)
Theorem stored_games_fit_the_schemas (db : gmap Z Game.t) (key : Z) (g : Game.t) :
  served db → db !! key = Some g →
  marks_only (Game.board g) ∧
  Forall valid_move (Game.moves g) ∧
  (∃ s, Game.status g = GameStatus.value s) ∧
  (Game.winner g = None ∨ ∃ p, Game.winner g = Some (Player.value p)) ∧
  GameHistoryItem.make (GameDict.of_row key g)
  = Ok (GameHistoryItem.of_dict (GameDict.of_row key g)).
Proof.
  intros Hserved Hg.
  destruct (served_fits_schema db key g Hserved Hg) as (Hboard & Hmoves & Hsummary).
  split_and!; try done; try apply Hsummary.
  unfold GameHistoryItem.make. by rewrite valid_summary_validates.
Qed.

(** A game in which X has played the centre. *)
Lemma stored_games_fit_the_schemas_witness :
  let db := (make_move 1 {| GameMoveRequest.player := Player.X;
                            GameMoveRequest.row := 1; GameMoveRequest.col := 1 |}
                       "2024-01-01T10:01:00"
               (start_game {| GameCreateRequest.first_player := None |}
                           "2024-01-01 10:00:00" ∅).2).2 in
  served db ∧
  ∃ g,
    db !! 1%Z = Some g ∧
    Game.moves g = [ {| MoveDict.player := "X"; MoveDict.row := 1; MoveDict.col := 1 |} ] ∧
    marks_only (Game.board g) ∧
    Forall valid_move (Game.moves g) ∧
    (∃ s, Game.status g = GameStatus.value s) ∧
    (Game.winner g = None ∨ ∃ p, Game.winner g = Some (Player.value p)) ∧
    GameHistoryItem.make (GameDict.of_row 1 g)
    = Ok (GameHistoryItem.of_dict (GameDict.of_row 1 g)).
Proof.
  cbv zeta.
  match goal with |- served ?t ∧ _ => assert (served t) as Hserved end.
  { apply served_move, served_start, served_empty. }
  split; [exact Hserved|].
  eexists. split; [vm_compute; reflexivity|]. split; [reflexivity|].
  refine (stored_games_fit_the_schemas _ 1 _ Hserved _).
  vm_compute. reflexivity.
Defined.

Lemma four_moves_game_fits : fits_schema four_moves_game.
Proof.
  split_and!.
  - unfold marks_only, four_moves_game. simpl.
    repeat (apply Forall_cons_2 || apply Forall_nil_2);
      solve [by left | right; by eexists].
  - unfold four_moves_game. simpl.
    repeat (apply Forall_cons_2 || apply Forall_nil_2);
      (unfold valid_move, in_range; simpl;
       split; [solve [by exists Player.X | by exists Player.O]|lia]).
  - split; [by exists GameStatus.IN_PROGRESS|by left].
Qed.

(** X12. On a stored game of the declared types whose board is a 3x3
    grid, with a clock reading that is not empty, the answer of
    [make_move] follows one order of checks: [GameFinished] exactly when
    the stored status is terminal; otherwise [OutOfBounds] exactly when
    the row or the column is outside 0..2; otherwise [CellOccupied]
    exactly when the cell holds a string; otherwise [WrongTurn] exactly
    when the player is not the next one.  When none of these holds, the
    answer is a response exactly when the board with the move made is
    still in progress, and the uncaught [StatementError] of the failed
    update exactly when that board is won or drawn. *)
Theorem make_move_check_order (game_id : Z) (req : GameMoveRequest.t)
    (now : timestamp) (db : gmap Z Game.t) (g : Game.t) :
  db !! game_id = Some g → is_grid (Game.board g) → fits_schema g → now ≠ "" →
  let answer := (make_move game_id req now db).1 in
  let row := GameMoveRequest.row req in
  let col := GameMoveRequest.col req in
  let player := GameMoveRequest.player req in
  let board := Game.board g in
  let accepted :=
    ¬ is_terminal (Game.status g) ∧ in_range row ∧ in_range col ∧
    cell_at board row col = Some None ∧ player = get_next_player board in
  (answer = HTTPException 400 GameFinished ↔ is_terminal (Game.status g)) ∧
  (answer = HTTPException 400 (MoveRejected OutOfBounds) ↔
     ¬ is_terminal (Game.status g) ∧ ¬ (in_range row ∧ in_range col)) ∧
  (answer = HTTPException 400 (MoveRejected CellOccupied) ↔
     ¬ is_terminal (Game.status g) ∧ in_range row ∧ in_range col ∧
     ∃ s, cell_at board row col = Some (Some s)) ∧
  (answer = HTTPException 400 (MoveRejected (WrongTurn (get_next_player board))) ↔
     ¬ is_terminal (Game.status g) ∧ in_range row ∧ in_range col ∧
     cell_at board row col = Some None ∧ player ≠ get_next_player board) ∧
  ((∃ resp, answer = Returned resp) ↔
     accepted ∧
     get_game_status (place board row col player) = Ok GameStatus.IN_PROGRESS) ∧
  (answer = Uncaught StatementError ↔
     accepted ∧
     ∃ s, get_game_status (place board row col player) = Ok s ∧ terminal s = true).
Proof.
  intros Hg Hb _ Hnow. cbv zeta.
  pose proof (finished_is_terminal (Game.status g)) as Hterm.
  pose proof (move_outcome_error (Game.board g) (GameMoveRequest.row req)
                (GameMoveRequest.col req) (GameMoveRequest.player req) Hb)
    as (Hout & Hocc & Hturn & Hexp & Hok).
  pose proof (play_move_outcome (Game.board g) (GameMoveRequest.row req)
                (GameMoveRequest.col req) (GameMoveRequest.player req) Hb) as Hplay.
  unfold make_move, get_game. rewrite Hg. simpl.
  destruct (finished (Game.status g)) eqn:Hfin.
  { assert (is_terminal (Game.status g)) by (by apply Hterm). simpl.
    split_and!; split; try done; try tauto.
    by intros [resp [=]]. }
  assert (¬ is_terminal (Game.status g)) as Hopen.
  { intros Ht%Hterm. congruence. }
  rewrite Hplay.
  destruct (move_outcome _ _ _ _) as [b' [e|]] eqn:Hmove; simpl in *.
  - assert (¬ (in_range (GameMoveRequest.row req) ∧ in_range (GameMoveRequest.col req) ∧
               cell_at (Game.board g) (GameMoveRequest.row req)
                       (GameMoveRequest.col req) = Some None ∧
               GameMoveRequest.player req = get_next_player (Game.board g)))
      as Hrejected.
    { intros Hr. by apply Hok in Hr. }
    split_and!;
      [| | | |split; [by intros [resp [=]]|tauto]|split; [done|tauto]];
      split; try (intros [= ->]); try tauto; try congruence.
    + intros (_ & Hr). f_equal. f_equal. by apply Hout in Hr as [= ->].
    + intros (_ & Hr). f_equal. f_equal. by apply Hocc in Hr as [= ->].
    + intros (_ & Hr). f_equal. f_equal. by apply Hturn in Hr as [= ->].
  - destruct (play_move_success _ _ _ _ _ Hb Hplay) as (Hrow & Hcol & Hcell & Hnext & ->).
    destruct (place_counts _ _ _ (GameMoveRequest.player req) Hb Hrow Hcol Hcell)
      as [Hb' _].
    assert (∃ s, get_game_status
                   (place (Game.board g) (GameMoveRequest.row req)
                          (GameMoveRequest.col req) (GameMoveRequest.player req))
                 = Ok s) as [s Hs].
    { eexists. by apply get_game_status_grid. }
    rewrite Hs. unfold update_game. rewrite Hg.
    destruct (terminal s) eqn:Hend; simpl.
    + rewrite (proj2 (String.eqb_neq now "") Hnow). simpl.
      split_and!; split; try done; try (intros (_ & Hr)).
      * by apply Hout in Hr.
      * by apply Hocc in Hr.
      * by apply Hturn in Hr.
      * by intros [resp [=]].
      * injection Hr as ->. done.
      * intros _. split; [by split; [|apply Hok]|]. by exists s.
    + rewrite lookup_insert_eq. simpl.
      split_and!; split; try done; try (intros (_ & Hr)).
      * by apply Hout in Hr.
      * by apply Hocc in Hr.
      * by apply Hturn in Hr.
      * intros _. split; [by split; [|apply Hok]|]. by destruct s.
      * by eexists.
      * destruct Hr as (s' & [= <-] & Hs'). congruence.
Qed.

(** On the game of four moves, X's move to (2,2) is answered with a
    response, and X's winning move to (0,2) with the error of the failed
    update. *)
Lemma make_move_check_order_witness :
  let db : gmap Z Game.t := {[ 7%Z := four_moves_game ]} in
  let move r c := {| GameMoveRequest.player := Player.X;
                     GameMoveRequest.row := r; GameMoveRequest.col := c |} in
  db !! 7%Z = Some four_moves_game ∧ is_grid (Game.board four_moves_game) ∧
  fits_schema four_moves_game ∧ "2024-01-01T10:05:00" ≠ "" ∧
  (∃ resp, (make_move 7 (move 2 2)%Z "2024-01-01T10:05:00" db).1 = Returned resp) ∧
  (make_move 7 (move 0 2)%Z "2024-01-01T10:05:00" db).1 = Uncaught StatementError.
Proof.
  cbv zeta.
  assert (¬ is_terminal (Game.status four_moves_game)) as Hopen.
  { by intros [|[|]]. }
  split; [apply lookup_singleton_eq|]. split; [apply is_grid_9|].
  split; [exact four_moves_game_fits|]. split; [done|]. split.
  - apply (make_move_check_order 7
             {| GameMoveRequest.player := Player.X;
                GameMoveRequest.row := 2; GameMoveRequest.col := 2 |}
             "2024-01-01T10:05:00" {[ 7%Z := four_moves_game ]} four_moves_game
             (lookup_singleton_eq _ _) (is_grid_9 _ _ _ _ _ _ _ _ _)
             four_moves_game_fits ltac:(done)).
    split; [|vm_compute; reflexivity].
    split; [exact Hopen|]. split; [unfold in_range; simpl; lia|].
    split; [unfold in_range; simpl; lia|]. split; reflexivity.
  - apply (make_move_check_order 7
             {| GameMoveRequest.player := Player.X;
                GameMoveRequest.row := 0; GameMoveRequest.col := 2 |}
             "2024-01-01T10:05:00" {[ 7%Z := four_moves_game ]} four_moves_game
             (lookup_singleton_eq _ _) (is_grid_9 _ _ _ _ _ _ _ _ _)
             four_moves_game_fits ltac:(done)).
    split; [|exists GameStatus.WINNER_X; split; [vm_compute|]; reflexivity].
    split; [exact Hopen|]. split; [unfold in_range; simpl; lia|].
    split; [unfold in_range; simpl; lia|]. split; reflexivity.
Defined.

(** X13. When [play_move] accepts the move on the stored board of an
    unfinished game of the declared types, with a clock reading that is
    not empty: if the board with the move made is still in progress,
    [make_move] stores and returns that board, the stored moves with the
    move appended, status IN_PROGRESS, no winner and the stored
    timestamps, the new row is of the declared types again, and
    [get_game_status_api] then returns the same response; if that board
    is won or drawn, the update fails, [make_move] ends with the
    uncaught [StatementError], and the table is left as it was. *)
Theorem make_move_accepts (game_id : Z) (req : GameMoveRequest.t)
    (utcnow : timestamp) (db : gmap Z Game.t) (g : Game.t) (b' : Board) :
  db !! game_id = Some g → ¬ is_terminal (Game.status g) →
  is_grid (Game.board g) → fits_schema g → utcnow ≠ "" →
  play_move (Game.board g) (GameMoveRequest.row req) (GameMoveRequest.col req)
            (GameMoveRequest.player req) = Ok (b', None) →
  ∃ s,
    get_game_status b' = Ok s ∧
    (terminal s = true →
     make_move game_id req utcnow db = (Uncaught StatementError, db)) ∧
    (terminal s = false →
     ∃ resp g',
       make_move game_id req utcnow db = (Returned resp, <[game_id := g']> db) ∧
       get_game_status_api game_id (<[game_id := g']> db) = Returned resp ∧
       fits_schema g' ∧
       GameStatusResponse.id resp = game_id ∧
       GameStatusResponse.board resp = b' ∧
       GameStatusResponse.moves resp =
         Game.moves g ++
           [ {| MoveDict.player := Player.value (GameMoveRequest.player req);
                MoveDict.row := GameMoveRequest.row req;
                MoveDict.col := GameMoveRequest.col req |} ] ∧
       GameStatusResponse.status resp = "IN_PROGRESS" ∧
       GameStatusResponse.winner resp = None ∧
       GameStatusResponse.created_at resp = Game.created_at g ∧
       GameStatusResponse.finished_at resp = Game.finished_at g).
Proof.
  intros Hg Hopen Hb Hfits Hnow Hplay.
  assert (finished (Game.status g) = false) as Hfin.
  { destruct (finished _) eqn:Hfin; [|done]. by apply finished_is_terminal in Hfin. }
  destruct (play_move_success _ _ _ _ _ Hb Hplay) as (Hrow & Hcol & Hcell & _ & Hb').
  assert (is_grid b') as Hgrid.
  { rewrite Hb'. by apply place_counts. }
  assert (∃ s, get_game_status b' = Ok s) as [s Hs].
  { eexists. by apply get_game_status_grid. }
  exists s. split; [done|].
  unfold make_move, get_game_status_api, get_game. rewrite Hg. simpl.
  rewrite Hfin, Hplay, Hs. simpl.
  unfold update_game. rewrite Hg. split; intros Hend; rewrite Hend; simpl.
  - by rewrite (proj2 (String.eqb_neq utcnow "") Hnow).
  - rewrite lookup_insert_eq. eexists _, _. split; [reflexivity|].
    rewrite lookup_insert_eq. simpl. split; [reflexivity|]. split.
    { rewrite Hb'. by apply (moved_fits_schema g req s). }
    assert (s = GameStatus.IN_PROGRESS) as -> by (by destruct s).
    by split_and!.
Qed.

(** On the game of four moves, X's move to (2,2) is stored and
    returned, and X's winning move to (0,2) ends with the error of the
    failed update. *)
Lemma make_move_accepts_witness :
  let db : gmap Z Game.t := {[ 3%Z := four_moves_game ]} in
  let move r c := {| GameMoveRequest.player := Player.X;
                     GameMoveRequest.row := r; GameMoveRequest.col := c |} in
  db !! 3%Z = Some four_moves_game ∧ ¬ is_terminal (Game.status four_moves_game) ∧
  is_grid (Game.board four_moves_game) ∧ fits_schema four_moves_game ∧
  "2024-01-01T10:09:00" ≠ "" ∧
  play_move (Game.board four_moves_game) 2 2 Player.X
  = Ok ([[mark Player.X; mark Player.X; None];
         [mark Player.O; mark Player.O; None];
         [None; None; mark Player.X]], None) ∧
  play_move (Game.board four_moves_game) 0 2 Player.X
  = Ok ([[mark Player.X; mark Player.X; mark Player.X];
         [mark Player.O; mark Player.O; None];
         [None; None; None]], None) ∧
  (∃ resp db',
     make_move 3 (move 2 2)%Z "2024-01-01T10:09:00" db = (Returned resp, db') ∧
     GameStatusResponse.status resp = "IN_PROGRESS") ∧
  make_move 3 (move 0 2)%Z "2024-01-01T10:09:00" db = (Uncaught StatementError, db).
Proof.
  cbv zeta.
  assert (¬ is_terminal (Game.status four_moves_game)) as Hopen.
  { by intros [|[|]]. }
  split; [apply lookup_singleton_eq|]. split; [exact Hopen|].
  split; [apply is_grid_9|]. split; [exact four_moves_game_fits|].
  split; [done|]. split; [reflexivity|]. split; [reflexivity|]. split.
  - destruct (make_move_accepts 3
                {| GameMoveRequest.player := Player.X;
                   GameMoveRequest.row := 2; GameMoveRequest.col := 2 |}
                "2024-01-01T10:09:00" {[ 3%Z := four_moves_game ]} four_moves_game _
                (lookup_singleton_eq _ _) Hopen (is_grid_9 _ _ _ _ _ _ _ _ _)
                four_moves_game_fits ltac:(done) eq_refl)
      as (s & Hs & _ & Hlive).
    assert (s = GameStatus.IN_PROGRESS) as -> by (vm_compute in Hs; congruence).
    destruct (Hlive eq_refl) as (resp & g' & Hmove & _ & _ & _ & _ & _ & Hstatus & _).
    by exists resp, (<[3%Z := g']> {[ 3%Z := four_moves_game ]}).
  - destruct (make_move_accepts 3
                {| GameMoveRequest.player := Player.X;
                   GameMoveRequest.row := 0; GameMoveRequest.col := 2 |}
                "2024-01-01T10:09:00" {[ 3%Z := four_moves_game ]} four_moves_game _
                (lookup_singleton_eq _ _) Hopen (is_grid_9 _ _ _ _ _ _ _ _ _)
                four_moves_game_fits ltac:(done) eq_refl)
      as (s & Hs & Hend & _).
    assert (s = GameStatus.WINNER_X) as -> by (vm_compute in Hs; congruence).
    exact (Hend eq_refl).
Defined.

(** ** Pages of the history *)

(** X14. Consecutive pages join: over stored games whose status and
    winner are of the declared types, for limits and an offset that are
    not negative and stay within 64 bits, the page of [a] games at
    [offset] followed by the page of [b] games at [offset + a] is the
    page of [a + b] games at [offset]; no game is skipped or listed
    twice between one page and the next. *)
Theorem pages_concatenate (db : gmap Z Game.t) (a b offset : Z) :
  (0 ≤ a)%Z → (0 ≤ b)%Z → (0 ≤ offset)%Z →
  (a + b < 2 ^ 63)%Z → (offset + a < 2 ^ 63)%Z →
  (∀ key g, db !! key = Some g → valid_summary g) →
  ∃ page1 page2,
    list_game_history a offset db = Ok page1 ∧
    list_game_history b (offset + a) db = Ok page2 ∧
    list_game_history (a + b) offset db = Ok (page1 ++ page2).
Proof.
  intros Ha Hb Hoffset Hab Hoa Hvalid.
  rewrite !list_game_history_page by (done || lia).
  eexists _, _. split; [reflexivity|]. split; [reflexivity|].
  rewrite <- fmap_app. do 2 f_equal.
  rewrite !Z2Nat.inj_add by lia.
  rewrite <- (drop_drop (order_by_id_desc db)).
  symmetry. apply take_take_drop.
Qed.

(** Over the five games, the page of two at offset 1 and the page of
    one at offset 3 make the page of three at offset 1. *)
Lemma pages_concatenate_witness :
  (0 ≤ 2)%Z ∧ (0 ≤ 1)%Z ∧ (0 ≤ 1)%Z ∧ (2 + 1 < 2 ^ 63)%Z ∧ (1 + 2 < 2 ^ 63)%Z ∧
  (∀ key g, five_games !! key = Some g → valid_summary g) ∧
  ∃ page1 page2,
    list_game_history 2 1 five_games = Ok page1 ∧
    list_game_history 1 (1 + 2) five_games = Ok page2 ∧
    list_game_history (2 + 1) 1 five_games = Ok (page1 ++ page2).
Proof.
  split; [lia|]. split; [lia|]. split; [lia|]. split; [lia|]. split; [lia|].
  split; [exact five_games_valid|].
  exact (pages_concatenate five_games 2 1 1 ltac:(lia) ltac:(lia) ltac:(lia)
           ltac:(lia) ltac:(lia) five_games_valid).
Defined.

Lemma page_elem_of {A} (limit offset : Z) (l : list A) (x : A) :
  x ∈ sql_limit limit (sql_offset offset l) → x ∈ l.
Proof.
  unfold sql_limit, sql_offset. intros Hin.
  assert (x ∈ drop (Z.to_nat offset) l) as Hdrop.
  { destruct (limit <? 0)%Z; [done|].
    apply elem_of_take in Hin as (i & Hi & _). by eapply list_elem_of_lookup_2. }
  apply list_elem_of_lookup in Hdrop as [i Hi]. rewrite lookup_drop in Hi.
  by eapply list_elem_of_lookup_2.
Qed.

(** X15. [list_games] and [get_game] agree: whatever the limit and the
    offset, every dictionary of a list that [list_games] returns is the
    one [get_game] returns for its id; and with offset 0 and a limit
    within 64 bits of at least the number of stored games, [list_games]
    returns a list in which every stored game is listed. *)
Theorem list_games_agrees_with_get_game (db : gmap Z Game.t) (limit offset : Z) :
  (∀ games d,
     list_games limit offset db = Ok games → d ∈ games →
     get_game (GameDict.id d) db = Some d) ∧
  ((Z.of_nat (size db) ≤ limit < 2 ^ 63)%Z →
   ∃ games,
     list_games limit 0 db = Ok games ∧
     ∀ key d, get_game key db = Some d → d ∈ games).
Proof.
  destruct (order_by_id_desc_newest_first db) as [Hmem _]. split.
  - intros games d. unfold list_games.
    destruct (int64 limit && int64 offset); [|done]. intros [= <-].
    intros (r & -> & Hr%page_elem_of)%list_elem_of_fmap.
    destruct r as [key g]. apply Hmem in Hr. unfold get_game. simpl. by rewrite Hr.
  - intros Hlimit. unfold list_games.
    rewrite (proj2 (int64_spec limit)) by lia. simpl.
    eexists. split; [reflexivity|].
    intros key d. unfold get_game.
    destruct (db !! key) as [g|] eqn:Hg; [|done]. intros [= <-].
    apply list_elem_of_fmap. exists (key, g). split; [done|].
    unfold sql_limit, sql_offset.
    destruct (limit <? 0)%Z; [by apply Hmem|].
    rewrite take_ge; [by apply Hmem|].
    unfold order_by_id_desc.
    change (Z.to_nat 0) with 0%nat. rewrite drop_0.
    rewrite merge_sort_Permutation, length_map_to_list. lia.
Qed.

(** Over the five games a limit of 5 lists them all. *)
Lemma list_games_agrees_with_get_game_witness :
  (Z.of_nat (size five_games) ≤ 5 < 2 ^ 63)%Z ∧
  ∃ games,
    list_games 5 0 five_games = Ok games ∧
    ∀ key d, get_game key five_games = Some d → d ∈ games.
Proof.
  assert (Z.of_nat (size five_games) ≤ 5 < 2 ^ 63)%Z as Hlimit.
  { split; [vm_compute; discriminate|lia]. }
  split; [exact Hlimit|].
  exact (proj2 (list_games_agrees_with_get_game five_games 5 0) Hlimit).
Defined.

(** X16. The game [start_game] has just created heads the history: over
    stored games whose status and winner are of the declared types, with
    a limit of at least 1 within 64 bits and offset 0, the first item
    [list_game_history] returns is the summary of the new game. *)
Theorem newest_game_is_listed_first (req : GameCreateRequest.t) (now : timestamp)
    (db : gmap Z Game.t) (limit : Z) :
  (1 ≤ limit < 2 ^ 63)%Z →
  (∀ key g, db !! key = Some g → valid_summary g) →
  ∃ resp db' page,
    start_game req now db = (Returned resp, db') ∧
    list_game_history limit 0 db' = Ok page ∧
    page !! 0%nat = Some (new_game_summary (GameStatusResponse.id resp) now).
Proof.
  intros Hlimit Hvalid.
  pose proof (start_game_valid req now db Hvalid) as Hvalid'.
  destruct (start_game_reply req now db) as (resp & Hstart & Hid).
  rewrite Hstart in Hvalid' |- *. simpl in Hvalid'. exists resp. rewrite Hid.
  set (g := {| Game.moves := []; Game.board := initial_board;
               Game.status := "IN_PROGRESS"; Game.winner := None;
               Game.created_at := Some now; Game.finished_at := None |}) in *.
  set (db' := <[next_id db := g]> db) in *.
  destruct (order_by_id_desc_newest_first db') as [Hmem Hdesc].
  assert ((next_id db, g) ∈ order_by_id_desc db') as Hnew.
  { apply Hmem. apply lookup_insert_eq. }
  apply list_elem_of_lookup in Hnew as [j Hj].
  assert (order_by_id_desc db' !! 0%nat = Some (next_id db, g)) as Hhead.
  { destruct j as [|j]; [done|].
    destruct (order_by_id_desc db' !! 0%nat) as [[key g0]|] eqn:H0.
    - pose proof (Hdesc 0%nat (S j) _ _ ltac:(lia) H0 Hj) as Hlt. simpl in Hlt.
      assert (db' !! key = Some g0) as Hkey.
      { apply Hmem. by eapply list_elem_of_lookup_2. }
      unfold db' in Hkey. rewrite lookup_insert_ne in Hkey by lia.
      pose proof (next_id_above db key g0 Hkey). lia.
    - apply lookup_ge_None in H0. apply lookup_lt_Some in Hj. lia. }
  eexists _, _. split; [reflexivity|].
  split; [apply list_game_history_page; [lia|lia|exact Hvalid']|].
  change (Z.to_nat 0) with 0%nat. rewrite drop_0.
  rewrite list_lookup_fmap, lookup_take_lt by lia. by rewrite Hhead.
Qed.

(** A new game in the table of five heads the history with id 6. *)
Lemma newest_game_is_listed_first_witness :
  (1 ≤ 20 < 2 ^ 63)%Z ∧
  (∀ key g, five_games !! key = Some g → valid_summary g) ∧
  ∃ resp db' page,
    start_game {| GameCreateRequest.first_player := None |}
               "2024-01-01T15:00:00" five_games = (Returned resp, db') ∧
    list_game_history 20 0 db' = Ok page ∧
    page !! 0%nat
    = Some (new_game_summary (GameStatusResponse.id resp) "2024-01-01T15:00:00").
Proof.
  split; [lia|]. split; [exact five_games_valid|].
  exact (newest_game_is_listed_first _ _ five_games 20 ltac:(lia) five_games_valid).
Defined.

(** ** Boards of any shape *)

Lemma cell_at_getitem (b : Board) (i j : Z) :
  (0 ≤ i)%Z → (0 ≤ j)%Z →
  (r ← getitem b i; getitem r j) =
    match cell_at b i j with
    | Some c => Ok c
    | None => Raise IndexError
    end.
Proof.
  intros Hi Hj. unfold cell_at, getitem.
  destruct (Z.ltb_spec i 0); [lia|]. destruct (Z.ltb_spec i 0); [lia|].
  destruct (Z.ltb_spec j 0); [lia|]. simpl.
  destruct (b !! Z.to_nat i) as [r|]; [|done]. cbn.
  destruct (Z.ltb_spec j 0); [lia|].
  by destruct (r !! Z.to_nat j).
Qed.

(** X17. On a board of any shape [play_move] raises [IndexError]
    exactly when the coordinates are within 0..2 and the board has no
    cell there; coordinates outside 0..2 are answered with [OutOfBounds]
    without the board being looked at, and where the cell exists the
    answer is [CellOccupied], [WrongTurn] or the board with the move
    made, in that order. *)
Theorem play_move_any_board (b : Board) (row col : Z) (player : Player.t) :
  play_move b row col player =
    if decide (in_range row ∧ in_range col) then
      match cell_at b row col with
      | None => Raise IndexError
      | Some (Some _) => Ok (b, Some CellOccupied)
      | Some None =>
          if decide (player = get_next_player b)
          then Ok (place b row col player, None)
          else Ok (b, Some (WrongTurn (get_next_player b)))
      end
    else Ok (b, Some OutOfBounds).
Proof.
  unfold play_move.
  destruct (_ || _) eqn:Hbounds.
  { rewrite decide_False; [done|]. intros Hr%bounds_check. congruence. }
  apply bounds_check in Hbounds as Hr. rewrite decide_True by done.
  destruct Hr as [Hrow Hcol]. unfold in_range in Hrow, Hcol.
  assert (cell_at b row col = (r ← b !! Z.to_nat row; r !! Z.to_nat col)) as Hcell.
  { unfold cell_at. destruct (Z.ltb_spec row 0); [lia|].
    by destruct (Z.ltb_spec col 0); [lia|]. }
  rewrite Hcell.
  destruct (b !! Z.to_nat row) as [r|] eqn:Hr; simpl.
  2:{ unfold getitem. destruct (Z.ltb_spec row 0); [lia|].
      destruct (Z.ltb_spec row 0); [lia|]. by rewrite Hr. }
  rewrite (getitem_in_range b row r) by (done || lia). cbn.
  destruct (r !! Z.to_nat col) as [c|] eqn:Hc.
  2:{ unfold getitem. destruct (Z.ltb_spec col 0); [lia|].
      destruct (Z.ltb_spec col 0); [lia|]. by rewrite Hc. }
  rewrite (getitem_in_range r col c) by (done || lia). cbn.
  destruct c as [s|]; [done|]. cbn.
  rewrite Player_eqb_decide.
  destruct (decide (player = _)) as [Heq|Hne].
  - rewrite bool_decide_eq_true_2 by done. cbn.
    rewrite (setitem_in_range r col) by (lia || by eapply lookup_lt_Some). cbn.
    rewrite (setitem_in_range b row) by (lia || by eapply lookup_lt_Some). cbn.
    unfold place. by rewrite Hr.
  - by rewrite bool_decide_eq_false_2.
Qed.

Lemma check_lines_none (b : Board) (todo : list (list (Z * Z))) :
  check_lines b todo = Ok None →
  ∀ line, line ∈ todo → ∃ marks, line_marks b line = Ok marks.
Proof.
  induction todo as [|l todo IH]; simpl.
  { by intros _ line Hin%elem_of_nil. }
  destruct (line_marks b l) as [marks|e] eqn:Hmarks; [|done].
  cbn [mbind result_bind].
  destruct (getitem marks 0) as [first|e]; [|done]. cbn [mbind result_bind].
  intros Hrest line [->|Hin]%elem_of_cons; [by eexists|].
  apply IH; [|done].
  destruct (truthy first && _); [|done].
  destruct (cell_is Player.X first); [done|].
  by destruct (cell_is Player.O first).
Qed.

Lemma line_marks_cells (b : Board) (line : list (Z * Z)) (marks : list cell) :
  line_marks b line = Ok marks →
  ∀ ij, ij ∈ line → (0 ≤ ij.1)%Z → (0 ≤ ij.2)%Z → ∃ c, cell_at b ij.1 ij.2 = Some c.
Proof.
  revert marks. induction line as [|[i j] line IH]; intros marks.
  { by intros _ ij Hin%elem_of_nil. }
  unfold line_marks. rewrite mapM_cons_Ok.
  intros (c & marks' & Hc & Hrest & _) ij [->|Hin]%elem_of_cons Hi Hj.
  - simpl in *. rewrite cell_at_getitem in Hc by done.
    destruct (cell_at b i j); [by eexists|done].
  - by eapply IH.
Qed.

(** X18. [check_winner] never answers "no winner" for a board that lacks
    one of the nine cells, and [get_game_status] never answers DRAW or
    IN_PROGRESS for it: whenever they give these answers, the board has
    a cell at every row and column in 0..2. *)
Theorem no_verdict_without_nine_cells (b : Board) :
  (check_winner b = Ok None ∨
   get_game_status b = Ok GameStatus.DRAW ∨
   get_game_status b = Ok GameStatus.IN_PROGRESS) →
  ∀ i j, in_range i → in_range j → ∃ c, cell_at b i j = Some c.
Proof.
  intros Hverdict.
  assert (check_winner b = Ok None) as Hnone.
  { destruct Hverdict as [?|Hstatus]; [done|].
    unfold get_game_status in Hstatus.
    destruct (check_winner b) as [[[|]|]|e]; cbn in Hstatus; try done;
      destruct Hstatus as [?|?]; congruence. }
  unfold check_winner in Hnone. rewrite scan_order_lines in Hnone.
  pose proof (check_lines_none b scan_order Hnone) as Hlines.
  intros i j Hi Hj.
  assert (∃ line, line ∈ scan_order ∧ (i, j) ∈ line) as (line & Hline & Hij).
  { exists [(i, 0); (i, 1); (i, 2)]%Z. split.
    - apply in_range_cases in Hi as [->|[->| ->]];
        apply list_elem_of_In; simpl; tauto.
    - apply in_range_cases in Hj as [->|[->| ->]];
        apply list_elem_of_In; simpl; tauto. }
  destruct (Hlines line Hline) as [marks Hmarks].
  apply (line_marks_cells b line marks Hmarks (i, j) Hij);
    unfold in_range in *; simpl; lia.
Qed.

(** The empty board has its nine cells; on a board with two rows only
    [check_winner] raises. *)
Lemma no_verdict_without_nine_cells_witness :
  let b := [[None; None; None]; [None; None; None]; [None; None; None]] in
  (check_winner b = Ok None ∨
   get_game_status b = Ok GameStatus.DRAW ∨
   get_game_status b = Ok GameStatus.IN_PROGRESS) ∧
  (∀ i j, in_range i → in_range j → ∃ c, cell_at b i j = Some c) ∧
  check_winner [[None; None; None]; [None; None; None]] = Raise IndexError.
Proof.
  cbv zeta. split; [by left|]. split; [|reflexivity].
  exact (no_verdict_without_nine_cells
           [[None; None; None]; [None; None; None]; [None; None; None]]
           (or_introl eq_refl)).
Defined.

(** ** The rows of a returned board *)

Lemma play_move_heap_accepts (h : heap) (board : loc) (value value' : Board)
    (row col : Z) (player : Player.t) :
  read_board h board = Ok value → is_grid value →
  play_move value row col player = Ok (value', None) →
  play_move_heap h board row col player =
    Ok ((h ++ (ORow <$> value')) ++ [OBoard (seq (length h) 3)],
        ((length h + 3)%nat, None)).
Proof.
  intros Hread Hb Hplay.
  destruct (play_move_success _ _ _ _ _ Hb Hplay)
    as (Hrow & Hcol & Hcell & Hturn & ->).
  pose proof Hread as Hread'. unfold read_board in Hread'.
  destruct (load_board h board) as [rows|e] eqn:Hrows; [|done]. cbn in Hread'.
  apply mapM_Ok_Forall2 in Hread' as Hall.
  destruct (grid_cell value row col Hb Hrow Hcol) as (r & c & Hr & Hlen & Hc).
  destruct (Forall2_lookup_r _ _ _ _ _ Hall Hr) as (rl & Hrl & Hload).
  assert (0 ≤ row)%Z as Hrow0 by (unfold in_range in Hrow; lia).
  assert (0 ≤ col)%Z as Hcol0 by (unfold in_range in Hcol; lia).
  rewrite (cell_at_lookup value row col r), Hc in Hcell by done.
  injection Hcell as ->.
  unfold play_move_heap.
  rewrite (proj2 (bounds_check row col)) by done.
  rewrite Hrows. cbn.
  rewrite (getitem_in_range rows row rl) by done. cbn. rewrite Hload. cbn.
  rewrite (getitem_in_range r col None) by done. cbn.
  rewrite Hread. cbn.
  rewrite Player_eqb_decide, bool_decide_eq_true_2 by done. cbn.
  rewrite (copy_rows_spec h rows value Hread'). cbn.
  assert (length value = 3%nat) as Hlen3 by apply Hb.
  assert (Z.to_nat row < 3)%nat as Hrow3 by (unfold in_range in Hrow; lia).
  assert (Z.to_nat col < 3)%nat as Hcol3 by (unfold in_range in Hcol; lia).
  rewrite (getitem_in_range (seq (length h) (length value)) row
             (length h + Z.to_nat row)%nat)
    by (done || apply lookup_seq_lt; lia).
  cbn.
  assert (load_row ((h ++ (ORow <$> value)) ++
                      [OBoard (seq (length h) (length value))])
                   (length h + Z.to_nat row) = Ok r) as ->.
  { unfold load_row.
    rewrite lookup_app_l by (rewrite length_app, length_fmap; lia).
    rewrite lookup_app_r by lia.
    replace (length h + Z.to_nat row - length h)%nat with (Z.to_nat row) by lia.
    by rewrite list_lookup_fmap, Hr. }
  cbn. rewrite (setitem_in_range r col) by (done || lia). cbn.
  rewrite insert_copy by lia.
  unfold place. rewrite Hr, Hlen3.
  by rewrite length_app, length_fmap, Hlen3.
Qed.

(** X19. The board a successful [play_move] returns shares no row with
    anything that existed before: its three rows are three different
    objects, all of them created by the call, and so is the board
    itself.  This holds also when rows of the input are one and the same
    object. *)
Theorem new_board_has_rows_of_its_own (h : heap) (board : loc)
    (value value' : Board) (row col : Z) (player : Player.t) :
  read_board h board = Ok value → is_grid value →
  play_move value row col player = Ok (value', None) →
  ∃ h' board' rows',
    play_move_heap h board row col player = Ok (h', (board', None)) ∧
    load_board h' board' = Ok rows' ∧
    length rows' = 3%nat ∧ NoDup rows' ∧
    (∀ r, r ∈ rows' → (length h ≤ r)%nat ∧ r ≠ board') ∧
    (length h ≤ board')%nat.
Proof.
  intros Hread Hb Hplay.
  rewrite (play_move_heap_accepts h board value value' row col player) by done.
  eexists _, _, (seq (length h) 3). split; [reflexivity|].
  assert (length value' = 3%nat) as Hlen'.
  { destruct (play_move_success _ _ _ _ _ Hb Hplay) as (? & ? & ? & _ & ->).
    by apply place_counts. }
  split_and!.
  - unfold load_board.
    replace (length h + 3)%nat with (length (h ++ (ORow <$> value')))
      by (rewrite length_app, length_fmap; lia).
    by rewrite list_lookup_middle.
  - apply length_seq.
  - apply NoDup_seq.
  - intros r Hr%elem_of_seq. lia.
  - lia.
Qed.

(** The board whose three rows are one object: the new board has three
    separate rows. *)
Lemma new_board_has_rows_of_its_own_witness :
  let h := [ORow [None; None; None]; OBoard [0; 0; 0]%nat] in
  let value' := [[mark Player.X; None; None]; [None; None; None];
                 [None; None; None]] in
  read_board h 1%nat = Ok initial_board ∧ is_grid initial_board ∧
  play_move initial_board 0 0 Player.X = Ok (value', None) ∧
  ∃ h' board' rows',
    play_move_heap h 1%nat 0 0 Player.X = Ok (h', (board', None)) ∧
    load_board h' board' = Ok rows' ∧
    length rows' = 3%nat ∧ NoDup rows' ∧
    (∀ r, r ∈ rows' → (length h ≤ r)%nat ∧ r ≠ board') ∧
    (length h ≤ board')%nat.
Proof.
  cbv zeta. split; [reflexivity|]. split; [apply is_grid_9|].
  split; [reflexivity|].
  exact (new_board_has_rows_of_its_own
           [ORow [None; None; None]; OBoard [0; 0; 0]%nat] 1%nat initial_board _
           0%Z 0%Z Player.X eq_refl (is_grid_9 _ _ _ _ _ _ _ _ _) eq_refl).
Defined.

(** ** Telling the failures apart *)

(** X20. The failures of the service can be told apart by their text: two
    failures with the same [detail] text are of the same kind, whatever
    way the expected player is rendered in the [WrongTurn] message, and
    no failure has an empty text. *)
Theorem failures_are_told_apart (fmt : Player.t → string) (d1 d2 : detail) :
  detail_text fmt d1 = detail_text fmt d2 →
  failure_kind d1 = failure_kind d2 ∧ detail_text fmt d1 ≠ "".
Proof.
  intros Htext. split.
  - destruct d1 as [| |[| |p]], d2 as [| |[| |q]]; simpl in *;
      try reflexivity; discriminate.
  - by destruct d1 as [| |[| |p]].
Qed.

Lemma failures_are_told_apart_witness :
  detail_text Player.value (MoveRejected (WrongTurn Player.X))
  = detail_text Player.value (MoveRejected (WrongTurn Player.X)) ∧
  failure_kind (MoveRejected (WrongTurn Player.X))
  = failure_kind (MoveRejected (WrongTurn Player.X)) ∧
  detail_text Player.value (MoveRejected (WrongTurn Player.X)) ≠ "".
Proof.
  split; [reflexivity|].
  exact (failures_are_told_apart Player.value _ _ eq_refl).
Defined.

(** ** The two bounds checks *)

Lemma validates_bounds (req : GameMoveRequest.t) :
  (GameMoveRequest.row req <? 0)%Z || (GameMoveRequest.row req >? 2)%Z
  || (GameMoveRequest.col req <? 0)%Z || (GameMoveRequest.col req >? 2)%Z
  = negb (GameMoveRequest.validates req).
Proof.
  unfold GameMoveRequest.validates. rewrite !Z.gtb_ltb.
  destruct (Z.ltb_spec (GameMoveRequest.row req) 0),
           (Z.ltb_spec 2 (GameMoveRequest.row req)),
           (Z.ltb_spec (GameMoveRequest.col req) 0),
           (Z.ltb_spec 2 (GameMoveRequest.col req)),
           (Z.leb_spec 0 (GameMoveRequest.row req)),
           (Z.leb_spec (GameMoveRequest.row req) 2),
           (Z.leb_spec 0 (GameMoveRequest.col req)),
           (Z.leb_spec (GameMoveRequest.col req) 2);
    simpl; try reflexivity; lia.
Qed.

(** X21. The field constraints of [GameMoveRequest] and the bounds check
    of [play_move] accept the same coordinates: a request that passes the
    constraints is never answered with [OutOfBounds], and one that fails
    them, made on an unfinished stored game, is answered with
    [OutOfBounds] and leaves the table as it was. *)
Theorem request_bounds_match_engine_bounds (req : GameMoveRequest.t) :
  (GameMoveRequest.validates req = true →
   ∀ game_id now db,
     (make_move game_id req now db).1 ≠ HTTPException 400 (MoveRejected OutOfBounds)) ∧
  (GameMoveRequest.validates req = false →
   ∀ game_id now db g,
     db !! game_id = Some g → finished (Game.status g) = false →
     make_move game_id req now db
     = (HTTPException 400 (MoveRejected OutOfBounds), db)).
Proof.
  split.
  - intros Hvalid game_id now db. by apply validated_move_in_bounds.
  - intros Hinvalid game_id now db g Hg Hfin.
    unfold make_move, get_game. rewrite Hg. simpl. rewrite Hfin.
    unfold play_move. by rewrite validates_bounds, Hinvalid.
Qed.
